(** * MegaETH allocation checker: a shallow embedding of the front end

    The repository holds three revisions of [checkAllocations] (the React
    component's only handler) and the Netlify relay function:

    - [netlify/functions/allocation.js]: the relay ([Relay.handler]);
    - the revision with name resolution, a direct state read and the
      off-chain API ([DirectRead.checkAllocations]);
    - the revision that rebuilds the allocation from [AllocationSet] event
      logs, scanned in chunks ([EventScan.checkAllocations]).

    Remote calls (the RPC client, [fetch]) are oracles gathered in a [World]
    record; every call issued is appended to a trace, so that "no network
    call" is a statement about that trace. The React state variables
    ([loading], [result], [error], [progress]) are threaded explicitly. *)

From Equations Require Import Equations.
From Stdlib Require Import ZArith NArith Lia List String Ascii Bool Sorted.
From Stdlib Require Import DecimalString.
From Stdlib Require Import Floats.SpecFloat.
Import ListNotations.

Open Scope string_scope.
Open Scope Z_scope.

(** ** JavaScript values used by the handlers *)

Module JS.

(** A call that either returns a value or throws; for an awaited promise,
    fulfilled or rejected. A thrown value is kept as its [message]. *)
Inductive outcome (A : Type) : Type :=
| Returns (a : A)
| Throws (message : string).
Arguments Returns {A} a.
Arguments Throws {A} message.

(** [s.startsWith(p)] *)
Definition startsWith (s p : string) : bool := String.prefix p s.

(** [s.endsWith(p)]: some suffix of [s] is [p]. *)
Fixpoint endsWith (s p : string) : bool :=
  String.eqb s p ||
  match s with
  | EmptyString => false
  | String _ s' => endsWith s' p
  end.

(** The character class [[a-fA-F0-9]]. *)
Definition isHexDigit (c : ascii) : bool :=
  let n := nat_of_ascii c in
  ((48 <=? n) && (n <=? 57) || (65 <=? n) && (n <=? 70) ||
   (97 <=? n) && (n <=? 102))%nat.

Fixpoint allHexDigits (s : string) : bool :=
  match s with
  | EmptyString => true
  | String c s' => isHexDigit c && allHexDigits s'
  end.

(** [s.match(/^0x[a-fA-F0-9]{40}$/)], as a boolean (a match object is
    truthy, [null] is falsy). *)
Definition matchesAddress (s : string) : bool :=
  match s with
  | String "0" (String "x" digits) =>
      (String.length digits =? 40)%nat && allHexDigits digits
  | _ => false
  end.

(** [s.toLowerCase()] on the ASCII letters; the strings the handlers
    lower-case are hexadecimal identifiers. *)
Definition lowerChar (c : ascii) : ascii :=
  let n := nat_of_ascii c in
  if ((65 <=? n) && (n <=? 90))%nat then ascii_of_nat (n + 32) else c.

Fixpoint toLowerCase (s : string) : string :=
  match s with
  | EmptyString => EmptyString
  | String c s' => String (lowerChar c) (toLowerCase s')
  end.

(** Truthiness of a string: non-empty. *)
Definition truthyString (s : string) : bool :=
  match s with
  | EmptyString => false
  | String _ _ => true
  end.

(** Template-literal rendering of an integer ([`${n}`] on a BigInt or an
    integral Number). *)
Definition decimal (z : Z) : string := NilZero.string_of_int (Z.to_int z).

(** *** Numbers: IEEE 754 binary64 *)

Definition prec : Z := 53.
Definition emax : Z := 1024.

Definition number : Type := spec_float.

(** [Number(n)] for a BigInt [n]: the nearest double, ties to even. *)
Definition Number (n : Z) : number := binary_normalize prec emax n 0 false.

(** [x / y] *)
Definition div (x y : number) : number := SFdiv prec emax x y.

(** The literals [0] and [1e6]. *)
Definition zero : number := S754_zero false.
Definition million : number := Number 1000000.

(** [x === y] on numbers. *)
Definition strictEq (x y : number) : bool := SFeqb x y.

(** [x > y] *)
Definition gt (x y : number) : bool := SFltb y x.

(** Truthiness of a number: neither a zero nor NaN. *)
Definition truthyNumber (x : number) : bool :=
  match x with
  | S754_zero _ | S754_nan => false
  | _ => true
  end.

End JS.

(** ** Effects: React state, remote calls, abrupt completion *)

Module Effects.
Import JS.

(** The remote calls a handler can issue, with their arguments. *)
Inductive NetCall : Type :=
| GetEnsAddress (name : string)
| ReadEntityByAddress (address : string)
| ReadEntityStateByID (entityID : string)
| Fetch (url : string)
| GetBlockNumber
| GetLogs (fromBlock toBlock : Z).

(** The component's state variables other than the input field; [R] is the
    shape of the object handed to [setResult]. *)
Record UI (R : Type) : Type := mkUI {
  loading : bool;
  result : option R;
  error : string;
  progress : string
}.
Arguments mkUI {R}.
Arguments loading {R}.
Arguments result {R}.
Arguments error {R}.
Arguments progress {R}.

(** What a run has done so far: the state variables and the calls issued,
    oldest first. *)
Record Machine (R : Type) : Type := mkMachine {
  ui : UI R;
  calls : list NetCall
}.
Arguments mkMachine {R}.
Arguments ui {R}.
Arguments calls {R}.

(** How a statement completes: normally with a value, by [return], or by a
    thrown exception. *)
Inductive completion (A : Type) : Type :=
| Normal (a : A)
| Return_
| Throw (message : string).
Arguments Normal {A} a.
Arguments Return_ {A}.
Arguments Throw {A} message.

Definition M (R A : Type) : Type := Machine R -> completion A * Machine R.

Section Monad.
Context {R : Type}.

Definition ret {A} (a : A) : M R A := fun m => (Normal a, m).

Definition bind {A B} (c : M R A) (k : A -> M R B) : M R B :=
  fun m =>
    match c m with
    | (Normal a, m') => k a m'
    | (Return_, m') => (Return_, m')
    | (Throw e, m') => (Throw e, m')
    end.

(** [return;] *)
Definition return_ {A} : M R A := fun m => (Return_, m).

Definition setLoading (b : bool) : M R unit :=
  fun m => (Normal tt,
            mkMachine (mkUI b (result (ui m)) (error (ui m)) (progress (ui m)))
                      (calls m)).

Definition setResult (r : option R) : M R unit :=
  fun m => (Normal tt,
            mkMachine (mkUI (loading (ui m)) r (error (ui m)) (progress (ui m)))
                      (calls m)).

Definition setError (e : string) : M R unit :=
  fun m => (Normal tt,
            mkMachine (mkUI (loading (ui m)) (result (ui m)) e (progress (ui m)))
                      (calls m)).

Definition setProgress (p : string) : M R unit :=
  fun m => (Normal tt,
            mkMachine (mkUI (loading (ui m)) (result (ui m)) (error (ui m)) p)
                      (calls m)).

(** [await f(args)]: the call is recorded, then it returns or throws. *)
Definition await {A} (c : NetCall) (o : outcome A) : M R A :=
  fun m =>
    let m' := mkMachine (ui m) (calls m ++ [c]) in
    match o with
    | Returns a => (Normal a, m')
    | Throws e => (Throw e, m')
    end.

(** Reading an already received response body ([response.json()],
    [response.text()]): it can throw, but issues no new call. *)
Definition settle {A} (o : outcome A) : M R A :=
  fun m =>
    match o with
    | Returns a => (Normal a, m)
    | Throws e => (Throw e, m)
    end.

(** [try { body } catch (e) { handler(e.message) }] *)
Definition tryCatch {A} (body : M R A) (handler : string -> M R A) : M R A :=
  fun m =>
    match body m with
    | (Throw e, m') => handler e m'
    | other => other
    end.

(** [try { body } finally { cleanup }]: the cleanup runs however the body
    completes, and an abrupt completion of the cleanup wins. *)
Definition tryFinally {A} (body : M R A) (cleanup : M R unit) : M R A :=
  fun m =>
    match body m with
    | (c, m') =>
        match cleanup m' with
        | (Normal _, m'') => (c, m'')
        | (Return_, m'') => (Return_, m'')
        | (Throw e, m'') => (Throw e, m'')
        end
    end.

End Monad.

Declare Scope js_scope.
Delimit Scope js_scope with js.
Notation "x <- c ;; k" := (bind c (fun x => k))
  (at level 61, c at next level, right associativity) : js_scope.
Notation "c ;; k" := (bind c (fun _ => k))
  (at level 61, right associativity) : js_scope.

End Effects.

(** ** The relay: [netlify/functions/allocation.js] *)

Module Relay.
Import JS.

Section Handler.

(** Parsed JSON, as [response.json()] yields it and [JSON.stringify] takes
    it; the relay never looks inside. *)
Variable Json : Type.

(** The upstream response: its status, and what [response.json()] does. *)
Record Upstream : Type := mkUpstream {
  upstream_status : Z;
  upstream_json : outcome Json
}.

(** The body handed to [new Response]: [JSON.stringify({ error })] or
    [JSON.stringify(data)]. *)
Inductive Body : Type :=
| ErrorBody (error : string)
| DataBody (data : Json).

Record Response : Type := mkResponse {
  body : Body;
  status : Z;
  headers : list (string * string)
}.

(** [searchParams.get(key)]: the first value of [key], or [null]. *)
Fixpoint searchParams_get (params : list (string * string)) (key : string)
  : option string :=
  match params with
  | [] => None
  | (k, v) :: rest => if String.eqb k key then Some v else searchParams_get rest key
  end.

Definition apiUrl (entityId : string) : string :=
  "https://token-api.megaeth.com/api/allocation?entityId=" ++ entityId.

(** The exported handler; [searchParams] is the query of [req.url] and
    [fetch] the upstream. *)
Definition handler (fetch : string -> outcome Upstream)
  (searchParams : list (string * string)) : Response :=
  let failed :=
    mkResponse (ErrorBody "Failed to fetch allocation data") 500
               [("Content-Type", "application/json")] in
  match searchParams_get searchParams "entityId" with
  | None =>
      mkResponse (ErrorBody "entityId parameter is required") 400
                 [("Content-Type", "application/json")]
  | Some entityId =>
      if negb (truthyString entityId) then
        mkResponse (ErrorBody "entityId parameter is required") 400
                   [("Content-Type", "application/json")]
      else
        match fetch (apiUrl entityId) with
        | Throws _ => failed
        | Returns response =>
            match upstream_json response with
            | Throws _ => failed
            | Returns data =>
                mkResponse (DataBody data) 200
                           [("Content-Type", "application/json");
                            ("Access-Control-Allow-Origin", "*")]
            end
        end
  end.

End Handler.

Arguments mkUpstream {Json}.
Arguments upstream_status {Json}.
Arguments upstream_json {Json}.
Arguments ErrorBody {Json}.
Arguments DataBody {Json}.
Arguments mkResponse {Json}.
Arguments body {Json}.
Arguments status {Json}.
Arguments headers {Json}.
Arguments handler {Json}.

End Relay.

(** ** [checkAllocations] with name resolution, direct state read and the
       off-chain API *)

Module DirectRead.
Import JS Effects.
Local Open Scope js_scope.

(** The API's answer, typed as the interface gives it:
    [{ usdt_allocation?: number, token_allocation?: number,
       clearing_price?: number }]; [None] is an absent (or [null]) key. *)
Record ApiData : Type := mkApiData {
  usdt_allocation : option number;
  token_allocation : option number;
  clearing_price : option number
}.

(** What [fetch] resolves to: the status, and what reading the body as JSON
    or as text does. A JSON body is an [ApiData] object or [null]. *)
Module Response.
Record t : Type := mk {
  status : Z;
  json : outcome (option ApiData);
  text : outcome string
}.
(** [response.ok] *)
Definition ok (r : t) : bool := ((200 <=? status r) && (status r <=? 299))%Z.
End Response.

(** The tuple [entityStateByID] returns. *)
Module EntityState.
Record t : Type := mk {
  addr : string;
  entityID : string;
  acceptedAmount : N;
  bidTimestamp : N;
  refunded : bool;
  cancelled : bool;
  activeBid : N * N
}.
End EntityState.

(** The object handed to [setResult]; a key the object literal does not
    have is [None]. *)
Module Result.
Record t : Type := mk {
  found : bool;
  message : option string;
  amount : option number;
  entityID : string;
  refunded : option bool;
  cancelled : option bool;
  bidTimestamp : option N;
  apiAllocation : option ApiData;
  apiError : option string
}.
End Result.

(** The remote services, and the build flag [import.meta.env.DEV]. *)
Record World : Type := mkWorld {
  DEV : bool;
  getEnsAddress : string -> outcome (option string);
  entityByAddress : string -> outcome string;
  entityStateByID : string -> outcome EntityState.t;
  fetch : string -> outcome Response.t
}.

(** The messages of the error taxonomy, as [setError] receives them. *)
Definition EmptyInput : string := "Please enter an address or ENS name".
Definition NameNotFound : string := "ENS name not found or not resolved".
Definition NameResolutionTransportError (cause : string) : string :=
  "Failed to resolve ENS name: " ++ cause.
Definition InvalidAddressFormat : string := "Invalid Ethereum address format".
Definition ChainReadError (cause : string) : string := "Error: " ++ cause.

(** The three statements before each early [return] inside the [try]. *)
Definition reject {A} (message : string) : M Result.t A :=
  setError message ;; setLoading false ;; setProgress EmptyString ;; return_.

(** The test "is the input an ENS name": it ends in [.eth] or does not
    start with [0x]. *)
Definition isEnsName (address : string) : bool :=
  negb (startsWith address "0x") || endsWith address ".eth".

(** Identity resolution: from [let resolvedAddress = address] to the end
    of the address validation. *)
Definition resolveIdentity (w : World) (address : string) : M Result.t string :=
  if isEnsName address then
    setProgress "🔍 Resolving ENS name..." ;;
    tryCatch
      (resolvedAddress <- await (GetEnsAddress address) (getEnsAddress w address) ;;
       match resolvedAddress with
       | Some a => if truthyString a then ret a else reject NameNotFound
       | None => reject NameNotFound
       end)
      (fun message => reject (NameResolutionTransportError message))
  else
    if negb (matchesAddress address) then reject InvalidAddressFormat
    else ret address.

(** [entityByAddress] *)
Definition locateEntity (w : World) (resolvedAddress : string) : M Result.t string :=
  setProgress "📡 Fetching entityID..." ;;
  await (ReadEntityByAddress resolvedAddress) (entityByAddress w resolvedAddress).

(** [entityStateByID] *)
Definition readEntityState (w : World) (entityID : string)
  : M Result.t EntityState.t :=
  setProgress "📊 Fetching allocation data..." ;;
  await (ReadEntityStateByID entityID) (entityStateByID w entityID).

Definition apiUrl (w : World) (entityID : string) : string :=
  if DEV w then "/api/allocation?entityId=" ++ entityID
  else "/.netlify/functions/allocation?entityId=" ++ entityID.

(** The off-chain fetch: yields [(apiAllocation, apiError)] as they stand
    after the inner [try]/[catch]. *)
Definition fetchConfirmed (w : World) (entityID : string)
  : M Result.t (option ApiData * option string) :=
  setProgress "🌐 Fetching confirmed allocation from API..." ;;
  tryCatch
    (apiResponse <- await (Fetch (apiUrl w entityID)) (fetch w (apiUrl w entityID)) ;;
     if Response.ok apiResponse then
       apiData <- settle (Response.json apiResponse) ;;
       ret (apiData, None)
     else
       errorText <- settle (Response.text apiResponse) ;;
       ret (None, Some ("API returned status " ++ decimal (Response.status apiResponse))))
    (fun message => ret (None, Some message)).

(** [v && Number(v) > 0] for one key of the API's answer. *)
Definition positiveAllocation (v : option number) : bool :=
  match v with
  | Some x => truthyNumber x && gt x zero
  | None => false
  end.

Definition hasApiAllocation (apiAllocation : option ApiData) : bool :=
  match apiAllocation with
  | Some d =>
      positiveAllocation (usdt_allocation d) || positiveAllocation (token_allocation d)
  | None => false
  end.

(** The classification: from [const acceptedAmount = ...] to the object
    handed to [setResult]. *)
Definition reconcile (entityID : string) (entityState : EntityState.t)
  (apiAllocation : option ApiData) (apiError : option string) : Result.t :=
  let acceptedAmount := Number (Z.of_N (EntityState.acceptedAmount entityState)) in
  let amountUSDT := div acceptedAmount million in
  if strictEq acceptedAmount zero && negb (hasApiAllocation apiAllocation) then
    Result.mk false (Some "No allocation detected") None entityID None None None
              apiAllocation apiError
  else
    Result.mk true None (Some amountUSDT) entityID
              (Some (EntityState.refunded entityState))
              (Some (EntityState.cancelled entityState))
              (Some (EntityState.bidTimestamp entityState))
              apiAllocation apiError.

Definition checkAllocations (w : World) (address : string) : M Result.t unit :=
  if negb (truthyString address) then
    setError EmptyInput ;; return_
  else
    setLoading true ;; setError EmptyString ;; setResult None ;;
    setProgress EmptyString ;;
    tryFinally
      (tryCatch
         (resolvedAddress <- resolveIdentity w address ;;
          entityID <- locateEntity w resolvedAddress ;;
          entityState <- readEntityState w entityID ;;
          api <- fetchConfirmed w entityID ;;
          setResult (Some (reconcile entityID entityState (fst api) (snd api))))
         (fun message => setError (ChainReadError message)))
      (setLoading false ;; setProgress EmptyString).

(** The all-zero [bytes16]. *)
Definition zeroEntityID : string := "0x00000000000000000000000000000000".

End DirectRead.

(** ** [checkAllocations] rebuilding the allocation from event logs *)

Module EventScan.
Import JS Effects.
Local Open Scope js_scope.

Definition START_BLOCK : Z := 21280000.
Definition CHUNK_SIZE : Z := 50000.

(** A decoded [AllocationSet] log. *)
Module Log.
Record t : Type := mk {
  entityID : string;
  acceptedAmountUSDT : N;
  blockNumber : Z;
  transactionHash : string
}.
End Log.

Module Result.
Record t : Type := mk {
  found : bool;
  message : option string;
  amount : option number;
  transactionHash : option string;
  blockNumber : option string;
  totalAllocations : option nat;
  entityID : string
}.
End Result.

(** The node, and the engine the page runs on: the number of arguments
    the engine accepts in one call, and the message of the [RangeError] it
    throws above that number. *)
Record World : Type := mkWorld {
  getBlockNumber : outcome Z;
  entityByAddress : string -> outcome string;
  getLogs : Z -> Z -> outcome (list Log.t);
  argumentLimit : N;
  rangeErrorMessage : string
}.

Definition EmptyInput : string := "Please enter an address".
Definition InvalidAddressFormat : string := "Invalid Ethereum address format".
Definition ChainReadError (cause : string) : string := "Error: " ++ cause.

(** The upper end of the chunk starting at [fromBlock]. *)
Definition chunkEnd (fromBlock currentBlock : Z) : Z :=
  if (fromBlock + CHUNK_SIZE - 1 >? currentBlock)%Z then currentBlock
  else fromBlock + CHUNK_SIZE - 1.

(** [allLogs.push(...logs)]: the spread makes every element of [logs] an
    argument of the one call to [push], which throws when they are more
    than the engine accepts and appends them otherwise. *)
Definition push (w : World) (allLogs logs : list Log.t) : outcome (list Log.t) :=
  if (N.of_nat (List.length logs) <=? argumentLimit w)%N
  then Returns (allLogs ++ logs)%list
  else Throws (rangeErrorMessage w).

(** The [for] loop, from the value [fromBlock] has when the condition is
    tested; it yields [allLogs]. *)
Equations? scanLoop (w : World) (fromBlock currentBlock : Z) (allLogs : list Log.t)
  : M Result.t (list Log.t)
  by wf (Z.to_nat (currentBlock - fromBlock + 1)) lt :=
  scanLoop w fromBlock currentBlock allLogs with Z_le_dec fromBlock currentBlock := {
    | left _ =>
        let toBlock := chunkEnd fromBlock currentBlock in
        setProgress ("📦 Scanning blocks " ++ decimal fromBlock ++ " to "
                     ++ decimal toBlock ++ "...") ;;
        logs <- await (GetLogs fromBlock toBlock) (getLogs w fromBlock toBlock) ;;
        allLogs' <- settle (push w allLogs logs) ;;
        scanLoop w (fromBlock + CHUNK_SIZE) currentBlock allLogs'
    | right _ => ret allLogs }.
Proof. unfold CHUNK_SIZE. lia. Qed.

(** The block ranges the loop goes through: its header and [toBlock],
    without the body. *)
Equations? chunkRanges (fromBlock currentBlock : Z) : list (Z * Z)
  by wf (Z.to_nat (currentBlock - fromBlock + 1)) lt :=
  chunkRanges fromBlock currentBlock with Z_le_dec fromBlock currentBlock := {
    | left _ =>
        (fromBlock, chunkEnd fromBlock currentBlock)
          :: chunkRanges (fromBlock + CHUNK_SIZE) currentBlock
    | right _ => [] }.
Proof. unfold CHUNK_SIZE. lia. Qed.

(** The filter's predicate. *)
Definition sameEntity (entityID : string) (log : Log.t) : bool :=
  String.eqb (toLowerCase (Log.entityID log)) (toLowerCase entityID).

(** From the filter to [setResult]. *)
Definition reconstruct (entityID : string) (allLogs : list Log.t) : Result.t :=
  let userAllocations := filter (sameEntity entityID) allLogs in
  match userAllocations with
  | [] =>
      Result.mk false (Some "No allocation detected") None None None None entityID
  | first :: _ =>
      let latestAlloc :=
        nth (List.length userAllocations - 1) userAllocations first in
      let amountUSDT :=
        div (Number (Z.of_N (Log.acceptedAmountUSDT latestAlloc))) million in
      Result.mk true None (Some amountUSDT)
                (Some (Log.transactionHash latestAlloc))
                (Some (decimal (Log.blockNumber latestAlloc)))
                (Some (List.length userAllocations))
                entityID
  end.

Definition checkAllocations (w : World) (address : string) : M Result.t unit :=
  if negb (truthyString address) then
    setError EmptyInput ;; return_
  else if negb (matchesAddress address) then
    setError InvalidAddressFormat ;; return_
  else
    setLoading true ;; setError EmptyString ;; setResult None ;;
    setProgress EmptyString ;;
    tryFinally
      (tryCatch
         (setProgress "📦 Getting current block..." ;;
          currentBlock <- await GetBlockNumber (getBlockNumber w) ;;
          setProgress "📡 Fetching entityID..." ;;
          entityID <- await (ReadEntityByAddress address) (entityByAddress w address) ;;
          setProgress ("🔄 Scanning blocks from " ++ decimal START_BLOCK ++ " to "
                       ++ decimal currentBlock ++ "...") ;;
          allLogs <- scanLoop w START_BLOCK currentBlock [] ;;
          setResult (Some (reconstruct entityID allLogs)))
         (fun message => setError (ChainReadError message)))
      (setLoading false ;; setProgress EmptyString).

End EventScan.

(** ** [checkAllocations] with name resolution and the direct state read
       only *)

Module StateRead.
Import JS Effects.
Local Open Scope js_scope.

Definition START_BLOCK : Z := 21280000.

(** The object handed to [setResult]. *)
Module Result.
Record t : Type := mk {
  found : bool;
  message : option string;
  amount : option number;
  entityID : string;
  refunded : option bool;
  cancelled : option bool;
  bidTimestamp : option N
}.
End Result.

Record World : Type := mkWorld {
  getEnsAddress : string -> outcome (option string);
  entityByAddress : string -> outcome string;
  entityStateByID : string -> outcome DirectRead.EntityState.t
}.

Definition EmptyInput : string := "Please enter an address or ENS name".
Definition NameNotFound : string := "ENS name not found or not resolved".
Definition NameResolutionTransportError (cause : string) : string :=
  "Failed to resolve ENS name: " ++ cause.
Definition InvalidAddressFormat : string := "Invalid Ethereum address format".
Definition ChainReadError (cause : string) : string := "Error: " ++ cause.

Definition reject {A} (message : string) : M Result.t A :=
  setError message ;; setLoading false ;; setProgress EmptyString ;; return_.

Definition isEnsName (address : string) : bool :=
  negb (startsWith address "0x") || endsWith address ".eth".

Definition resolveIdentity (w : World) (address : string) : M Result.t string :=
  if isEnsName address then
    setProgress "🔍 Resolving ENS name..." ;;
    tryCatch
      (resolvedAddress <- await (GetEnsAddress address) (getEnsAddress w address) ;;
       match resolvedAddress with
       | Some a => if truthyString a then ret a else reject NameNotFound
       | None => reject NameNotFound
       end)
      (fun message => reject (NameResolutionTransportError message))
  else
    if negb (matchesAddress address) then reject InvalidAddressFormat
    else ret address.

(** From [const acceptedAmount = ...] to the object handed to
    [setResult]. *)
Definition classify (entityID : string) (entityState : DirectRead.EntityState.t)
  : Result.t :=
  let acceptedAmount :=
    Number (Z.of_N (DirectRead.EntityState.acceptedAmount entityState)) in
  let amountUSDT := div acceptedAmount million in
  if strictEq acceptedAmount zero then
    Result.mk false (Some "No allocation detected") None entityID None None None
  else
    Result.mk true None (Some amountUSDT) entityID
              (Some (DirectRead.EntityState.refunded entityState))
              (Some (DirectRead.EntityState.cancelled entityState))
              (Some (DirectRead.EntityState.bidTimestamp entityState)).

Definition checkAllocations (w : World) (address : string) : M Result.t unit :=
  if negb (truthyString address) then
    setError EmptyInput ;; return_
  else
    setLoading true ;; setError EmptyString ;; setResult None ;;
    setProgress EmptyString ;;
    tryFinally
      (tryCatch
         (resolvedAddress <- resolveIdentity w address ;;
          setProgress "📡 Fetching entityID..." ;;
          entityID <- await (ReadEntityByAddress resolvedAddress)
                            (entityByAddress w resolvedAddress) ;;
          setProgress "� Fetching allocation data..." ;;
          entityState <- await (ReadEntityStateByID entityID)
                               (entityStateByID w entityID) ;;
          setResult (Some (classify entityID entityState)))
         (fun message => setError (ChainReadError message)))
      (setLoading false ;; setProgress EmptyString).

End StateRead.

(** ** What the component renders *)

Module View.
Import JS Effects.

(** The component's event handlers, as props name them. *)
Inductive Handler : Type :=
| CheckAllocations
| HandleKeyPress
| SetAddress.

Inductive Attr : Type :=
| AString (s : string)
| ABool (b : bool)
| AHandler (h : Handler)
| AStyle (declarations : list (string * string)).

(** A rendered child: a string or a number (rendered as text), a value
    that renders nothing ([false], [null], [undefined]), a fragment, or an
    element. *)
#[warnings="-register-all"] Inductive Node : Type :=
| Text (s : string)
| Num (x : number)
| Blank
| Fragment (children : list Node)
| Elem (tag : string) (attrs : list (string * Attr)) (children : list Node).

Definition className (c : string) : string * Attr := ("className", AString c).

(** The recurring [detail-item] row: a label and a value. *)
Definition detailItem (label valueClass : string) (value : list Node) : Node :=
  Elem "div" [className "detail-item"]
       [Elem "span" [className "label"] [Text label];
        Elem "span" [className valueClass] value].

(** [s.slice(start, end)] and [s.slice(start)], with negative indices
    counted from the end. *)
Definition sliceIndex (len : nat) (i : Z) : nat :=
  if i <? 0 then Z.to_nat (Z.max (Z.of_nat len + i) 0)
  else Nat.min (Z.to_nat i) len.

Definition slice (s : string) (start : Z) (stop : option Z) : string :=
  let len := String.length s in
  let from := sliceIndex len start in
  let to := match stop with Some e => sliceIndex len e | None => len end in
  String.substring from (to - from) s.

(** Calling an async function without awaiting it: its effects happen, its
    completion is dropped. *)
Definition unawaited {R A} (body : M R A) : M R unit :=
  fun m => (Normal tt, snd (body m)).

(** What the user does: types into the field, presses a key in it, clicks
    the button. *)
Inductive Event : Type :=
| Type_ (text : string)
| KeyPress (key : string)
| Click.

(** The component: the input field's state and the other state
    variables, with the calls issued so far. *)
Record Page (R : Type) : Type := mkPage {
  address : string;
  machine : Machine R
}.
Arguments mkPage {R}.
Arguments address {R}.
Arguments machine {R}.

Definition CONTRACT_ADDRESS : string := "0xab02bf85a7a851b6a379ea3d5bd3b9b4f5dd8461".

(** The parts of the page the three revisions share. *)
Definition button (loading : bool) : Node :=
  Elem "button"
       [("onClick", AHandler CheckAllocations); ("disabled", ABool loading);
        className "check-button"]
       [Text (if loading then "⏳ Checking..." else "🔍 Check Allocation")].

Definition input (placeholder address : string) (loading : bool) : Node :=
  Elem "input"
       [("type", AString "text"); ("placeholder", AString placeholder);
        ("value", AString address); ("onChange", AHandler SetAddress);
        ("onKeyPress", AHandler HandleKeyPress); ("disabled", ABool loading);
        className "address-input"]
       [].

(** [{progress && <div className="progress">{progress}</div>}] *)
Definition progressLine (progress : string) : Node :=
  if truthyString progress then Elem "div" [className "progress"] [Text progress]
  else Text progress.

(** [{error && <div className="error">❌ {error}</div>}] *)
Definition errorBanner (error : string) : Node :=
  if truthyString error then Elem "div" [className "error"] [Text "❌ "; Text error]
  else Text error.

(** [{result.entityID && (...)}] of the not-found panels. *)
Definition entityBlock (entityID : string) : Node :=
  if truthyString entityID then
    Elem "div" [className "result-details"]
         [detailItem "🆔 Entity ID:" "value small" [Text entityID]]
  else Text entityID.

(** [{flag && (...)}] for the [Refunded] and [Cancelled] rows. *)
Definition statusRow (flag : option bool) (status : string) : Node :=
  match flag with
  | Some true => detailItem "⚠️ Status:" "value" [Text status]
  | _ => Blank
  end.

Definition page (placeholder address : string) (loading : bool)
  (progress error : string) (resultPanel : Node) (footer : list Node) : Node :=
  Elem "div" [className "app"]
    [Elem "div" [className "container"]
       [Elem "h1" [] [Text "🔍 MegaETH Allocation Checker"];
        Elem "p" [className "subtitle"]
             [Text "Check your MegaETH allocation status on Ethereum"];
        Elem "div" [className "input-section"]
             [input placeholder address loading; button loading];
        progressLine progress;
        errorBanner error;
        resultPanel;
        Elem "div" [className "footer"] footer]].

Definition contractLine : Node :=
  Elem "p" [] [Text "Contract: "; Elem "code" [] [Text CONTRACT_ADDRESS]].

(** [{result && (<div className={`result ${...}`}>...</div>)}] *)
Definition resultPanel (found : bool) (children : list Node) : Node :=
  Elem "div"
       [className (if found then "result success" else "result no-result")]
       children.

End View.

(** ** The page of the revision with the API *)

Module DirectReadPage.
Import JS Effects View DirectRead.

Section Render.

(** [x.toLocaleString()]: the number formatted for the browser's locale. *)
Variable toLocaleString : number -> string.

(** [{v && (...)}] on a key of the API's answer: an absent key renders
    nothing, a zero renders as that number, anything else renders the row. *)
Definition whenNumber (v : option number) (row : number -> Node) : Node :=
  match v with
  | None => Blank
  | Some x => if truthyNumber x then row x else Num x
  end.

Definition clearingPriceRow (apiData : ApiData) : Node :=
  whenNumber (clearing_price apiData)
    (fun x => detailItem "💵 Clearing Price:" "value" [Text "$"; Num x]).

(** [{result.apiAllocation && (<>...</>)}] of the found panel. *)
Definition confirmedBlock (apiAllocation : option ApiData) : Node :=
  match apiAllocation with
  | None => Blank
  | Some d =>
      Fragment
        [detailItem "✅ Confirmed USDT Allocation (API):" "value"
           [Text (match usdt_allocation d with
                  | Some x =>
                      if truthyNumber x && gt x zero
                      then toLocaleString x ++ " USDT" else "No allocation"
                  | None => "No allocation"
                  end)];
         whenNumber (token_allocation d)
           (fun x =>
              if gt x zero then
                detailItem "🪙 Token Allocation:" "value"
                  [Text (toLocaleString x); Text " "; Text "MEGA"]
              else Blank);
         clearingPriceRow d;
         Elem "p" [className "info-text"]
           [Text "ℹ️ This is your confirmed allocation that will be updated on-chain at the end of the month."]]
  end.

Definition onChainRow (amount : option number) : Node :=
  detailItem "⛓️ On-Chain Amount:" "value"
    [Text (match amount with
           | Some x => if gt x zero then toLocaleString x ++ " USDT"
                       else "Not yet updated"
           | None => "Not yet updated"
           end)].

(** [{result.amount === 0 && result.apiAllocation && (...)}] *)
Definition pendingNote (amount : option number) (apiAllocation : option ApiData)
  : Node :=
  match amount with
  | Some x =>
      if strictEq x zero then
        match apiAllocation with
        | Some _ =>
            Elem "p" [className "info-text"]
              [Text "⏳ The on-chain state will be updated at the end of the month."]
        | None => Blank
        end
      else Blank
  | None => Blank
  end.

(** [{!result.apiAllocation && result.apiError && (...)}] *)
Definition apiWarning (apiAllocation : option ApiData) (apiError : option string)
  : Node :=
  match apiAllocation with
  | Some _ => Blank
  | None =>
      match apiError with
      | None => Blank
      | Some e =>
          if truthyString e then
            Elem "p" [className "info-text"; ("style", AStyle [("color", "#ff9800")])]
              [Text "⚠️ Could not fetch API allocation: "; Text e]
          else Text e
      end
  end.

Definition foundPanel (r : Result.t) : list Node :=
  [Elem "h2" [] [Text "🎉 Allocation Found!"];
   Elem "div" [className "result-details"]
     [confirmedBlock (Result.apiAllocation r);
      onChainRow (Result.amount r);
      pendingNote (Result.amount r) (Result.apiAllocation r);
      apiWarning (Result.apiAllocation r) (Result.apiError r);
      detailItem "🆔 Entity ID:" "value small" [Text (Result.entityID r)];
      statusRow (Result.refunded r) "Refunded";
      statusRow (Result.cancelled r) "Cancelled"]].

(** [{v || "0"}] *)
Definition orZero (v : option number) : Node :=
  match v with
  | Some x => if truthyNumber x then Num x else Text "0"
  | None => Text "0"
  end.

Definition notFoundPanel (r : Result.t) : list Node :=
  [Elem "h2" [] [Text "❌ No Allocation Detected"];
   Elem "p" [] [Text "No allocation found for this address."];
   match Result.apiAllocation r with
   | None => Blank
   | Some d =>
       Elem "div" [className "result-details"]
         [detailItem "📊 API Check:" "value"
            [Text "USDT: "; orZero (usdt_allocation d); Text " | Tokens: ";
             orZero (token_allocation d)];
          clearingPriceRow d]
   end;
   Elem "p" [className "info-text"]
     [Text "ℹ️ If you participated in the sale, your allocation might not be set yet. Please check back later or contact the MegaETH team for more information."];
   entityBlock (Result.entityID r)].

Definition render (address : string) (st : UI Result.t) : Node :=
  page "Enter your Ethereum address or ENS name (vitalik.eth)" address
       (loading st) (progress st) (error st)
       (match result st with
        | None => Blank
        | Some r =>
            resultPanel (Result.found r)
              [Fragment (if Result.found r then foundPanel r else notFoundPanel r)]
        end)
       [contractLine].

End Render.

Definition handleKeyPress (w : World) (address key : string) : M Result.t unit :=
  if String.eqb key "Enter" then unawaited (checkAllocations w address)
  else ret tt.

(** One event on the page; the field and the button are disabled while
    [loading]. *)
Definition step (w : World) (e : Event) (p : Page Result.t) : Page Result.t :=
  if loading (ui (machine p)) then p
  else
    match e with
    | Type_ text => mkPage text (machine p)
    | KeyPress key =>
        mkPage (address p) (snd (handleKeyPress w (address p) key (machine p)))
    | Click =>
        mkPage (address p) (snd (unawaited (checkAllocations w (address p)) (machine p)))
    end.

End DirectReadPage.

(** ** The page of the revision that scans the events *)

Module EventScanPage.
Import JS Effects View EventScan.

Section Render.

Variable toLocaleString : number -> string.

Definition footer : list Node :=
  [contractLine;
   Elem "p" [] [Text "Scanning from block "; Text (decimal START_BLOCK)]].

(** The found panel reads [result.amount.toLocaleString()] and
    [result.transactionHash.slice(...)]: on a result without one of these
    keys the render throws, which is [None] here. *)
Definition foundPanel (r : Result.t) : option (list Node) :=
  match Result.amount r, Result.transactionHash r with
  | Some amount, Some transactionHash =>
      Some
        [Elem "h2" [] [Text "🎉 Allocation Found!"];
         Elem "div" [className "result-details"]
           [detailItem "💰 Amount:" "value"
              [Text (toLocaleString amount); Text " USDT"];
            Elem "div" [className "detail-item"]
              [Elem "span" [className "label"] [Text "🔗 Transaction:"];
               Elem "a"
                 [("href", AString ("https://etherscan.io/tx/" ++ transactionHash));
                  ("target", AString "_blank");
                  ("rel", AString "noopener noreferrer");
                  className "link"]
                 [Text (slice transactionHash 0 (Some 10)); Text "...";
                  Text (slice transactionHash (-8) None)]];
            detailItem "📦 Block:" "value"
              [match Result.blockNumber r with Some b => Text b | None => Blank end];
            detailItem "📊 Total Allocations:" "value"
              [match Result.totalAllocations r with
               | Some n => Num (Number (Z.of_nat n))
               | None => Blank
               end];
            detailItem "🆔 Entity ID:" "value small" [Text (Result.entityID r)]]]
  | _, _ => None
  end.

Definition notFoundPanel (r : Result.t) : list Node :=
  [Elem "h2" [] [Text "❌ No Allocation Detected"];
   Elem "p" [] [Text "No allocation found for this address."];
   entityBlock (Result.entityID r)].

Definition render (address : string) (st : UI Result.t) : option Node :=
  let shell panel :=
    page "Enter your Ethereum address (0x...)" address
         (loading st) (progress st) (error st) panel footer in
  match result st with
  | None => Some (shell Blank)
  | Some r =>
      if Result.found r then
        match foundPanel r with
        | Some children => Some (shell (resultPanel true [Fragment children]))
        | None => None
        end
      else Some (shell (resultPanel false [Fragment (notFoundPanel r)]))
  end.

End Render.

Definition handleKeyPress (w : World) (address key : string) : M Result.t unit :=
  if String.eqb key "Enter" then unawaited (checkAllocations w address)
  else ret tt.

Definition step (w : World) (e : Event) (p : Page Result.t) : Page Result.t :=
  if loading (ui (machine p)) then p
  else
    match e with
    | Type_ text => mkPage text (machine p)
    | KeyPress key =>
        mkPage (address p) (snd (handleKeyPress w (address p) key (machine p)))
    | Click =>
        mkPage (address p) (snd (unawaited (checkAllocations w (address p)) (machine p)))
    end.

End EventScanPage.

(** ** The page of the revision with the direct state read only *)

Module StateReadPage.
Import JS Effects View StateRead.

Section Render.

Variable toLocaleString : number -> string.

Definition footer : list Node :=
  [contractLine;
   Elem "p" [] [Text "Scanning from block "; Text (decimal START_BLOCK)]].

(** [result.amount.toLocaleString()] throws on a result without an
    [amount]: [None]. *)
Definition foundPanel (r : Result.t) : option (list Node) :=
  match Result.amount r with
  | Some amount =>
      Some
        [Elem "h2" [] [Text "🎉 Allocation Found!"];
         Elem "div" [className "result-details"]
           [detailItem "💰 Amount:" "value"
              [Text (toLocaleString amount); Text " USDT"];
            detailItem "🆔 Entity ID:" "value small" [Text (Result.entityID r)];
            statusRow (Result.refunded r) "Refunded";
            statusRow (Result.cancelled r) "Cancelled"]]
  | None => None
  end.

Definition notFoundPanel (r : Result.t) : list Node :=
  [Elem "h2" [] [Text "❌ No Allocation Detected"];
   Elem "p" [] [Text "No allocation found for this address."];
   entityBlock (Result.entityID r)].

Definition render (address : string) (st : UI Result.t) : option Node :=
  let shell panel :=
    page "Enter your Ethereum address or ENS name (vitalik.eth)" address
         (loading st) (progress st) (error st) panel footer in
  match result st with
  | None => Some (shell Blank)
  | Some r =>
      if Result.found r then
        match foundPanel r with
        | Some children => Some (shell (resultPanel true [Fragment children]))
        | None => None
        end
      else Some (shell (resultPanel false [Fragment (notFoundPanel r)]))
  end.

End Render.

Definition handleKeyPress (w : World) (address key : string) : M Result.t unit :=
  if String.eqb key "Enter" then unawaited (checkAllocations w address)
  else ret tt.

Definition step (w : World) (e : Event) (p : Page Result.t) : Page Result.t :=
  if loading (ui (machine p)) then p
  else
    match e with
    | Type_ text => mkPage text (machine p)
    | KeyPress key =>
        mkPage (address p) (snd (handleKeyPress w (address p) key (machine p)))
    | Click =>
        mkPage (address p) (snd (unawaited (checkAllocations w (address p)) (machine p)))
    end.

End StateReadPage.

(** * Properties *)

(** ** Numbers: a non-zero BigInt never converts to zero *)

Section NumberFacts.
Import JS.

Lemma digits2_pos_size (p : positive) : digits2_pos p = Pos.size p.
Proof. induction p; simpl; congruence. Qed.

Lemma pow2_size_le (p : positive) : 2 ^ (Zpos (Pos.size p) - 1) <= Zpos p.
Proof.
  pose proof (Pos.size_le p) as H.
  apply Pos2Z.pos_le_pos in H. rewrite Pos2Z.inj_pow in H.
  replace (Zpos (Pos.size p)) with (Z.succ (Zpos (Pos.size p) - 1)) in H by lia.
  rewrite Z.pow_succ_r in H by lia. lia.
Qed.

(** One step of the right shift halves a non-negative mantissa. *)
Lemma shr_1_m (r : shr_record) :
  0 <= shr_m r -> shr_m (shr_1 r) = Z.div2 (shr_m r).
Proof.
  destruct r as [m r s]; simpl.
  destruct m as [|[q|q|]|q]; simpl; intros; try reflexivity; lia.
Qed.

Lemma iter_shr_1_m (n : positive) : forall r : shr_record,
  0 <= shr_m r -> shr_m (iter_pos shr_1 n r) = Z.shiftr (shr_m r) (Zpos n).
Proof.
  induction n as [n IH|n IH|]; intros r Hr; simpl.
  - assert (H1 : 0 <= shr_m (shr_1 r))
      by (rewrite shr_1_m by assumption; apply Z.div2_nonneg; assumption).
    rewrite IH.
    + rewrite IH by assumption. rewrite shr_1_m by assumption.
      rewrite Z.div2_spec. rewrite !Z.shiftr_shiftr by lia. f_equal; lia.
    + rewrite IH by assumption. apply Z.shiftr_nonneg. assumption.
  - rewrite IH.
    + rewrite IH by assumption. rewrite Z.shiftr_shiftr by lia. f_equal; lia.
    + rewrite IH by assumption. apply Z.shiftr_nonneg. assumption.
  - rewrite shr_1_m by assumption. apply Z.div2_spec.
Qed.

Lemma shr_record_of_loc_m (m : Z) (l : location) :
  shr_m (shr_record_of_loc m l) = m.
Proof. destruct l as [|[]]; reflexivity. Qed.

(** Above the least exponent, the shift to the target exponent keeps at
    least the leading bit of the mantissa. *)
Lemma shr_fexp_pos (m : positive) (e : Z) (l : location) :
  emin prec emax <= e ->
  0 < shr_m (fst (shr_fexp prec emax (Zpos m) e l)) /\
  e <= snd (shr_fexp prec emax (Zpos m) e l).
Proof.
  intros He. unfold shr_fexp, shr. simpl Zdigits2. rewrite digits2_pos_size.
  pose proof (pow2_size_le m) as Hm.
  set (d := Zpos (Pos.size m)) in *.
  assert (Hd : 1 <= d) by (unfold d; lia).
  remember (fexp prec emax (d + e) - e) as n eqn:Hn.
  assert (Hle : n <= d - 1).
  { subst n. unfold fexp, prec, emin in *. lia. }
  destruct n as [|n|n]; simpl; rewrite ?shr_record_of_loc_m; try lia.
  split; [|lia].
  rewrite iter_shr_1_m by (rewrite shr_record_of_loc_m; lia).
  rewrite shr_record_of_loc_m. rewrite Z.shiftr_div_pow2 by lia.
  apply Z.div_str_pos. split; [apply Z.pow_pos_nonneg; lia|].
  eapply Z.le_trans; [|exact Hm]. apply Z.pow_le_mono_r; lia.
Qed.

Lemma round_nearest_even_pos (m : Z) (l : location) :
  0 < m -> 0 < round_nearest_even m l.
Proof.
  intros H. destruct l as [|[]]; simpl; try lia. destruct (Z.even m); lia.
Qed.

(** A strictly positive double: finite or infinite, sign bit clear. *)
Definition positiveNumber (x : number) : Prop :=
  (exists m e, x = S754_finite false m e) \/ x = S754_infinity false.

Lemma binary_round_aux_positive (m : positive) (e : Z) (l : location) :
  emin prec emax <= e ->
  positiveNumber (binary_round_aux prec emax false (Zpos m) e l).
Proof.
  intros He. unfold binary_round_aux.
  destruct (shr_fexp_pos m e l He) as [H1 H2].
  destruct (shr_fexp prec emax (Zpos m) e l) as [r1 e1]; simpl in H1, H2.
  pose proof (round_nearest_even_pos (shr_m r1) (loc_of_shr_record r1) H1) as H3.
  destruct (round_nearest_even (shr_m r1) (loc_of_shr_record r1)) as [|m2|m2];
    try lia.
  assert (He1 : emin prec emax <= e1) by lia.
  destruct (shr_fexp_pos m2 e1 loc_Exact He1) as [H4 H5].
  destruct (shr_fexp prec emax (Zpos m2) e1 loc_Exact) as [r2 e2];
    simpl in H4, H5.
  destruct (shr_m r2) as [|m3|m3]; try lia.
  destruct (e2 <=? emax - prec); [left; eauto | right; reflexivity].
Qed.

Lemma Number_positive (p : positive) : positiveNumber (Number (Zpos p)).
Proof.
  unfold Number, binary_normalize, binary_round, shl_align.
  rewrite digits2_pos_size.
  set (f := fexp prec emax (Zpos (Pos.size p) + 0)).
  assert (Hf : emin prec emax <= f) by (unfold f, fexp; lia).
  destruct (f - 0); apply binary_round_aux_positive;
    first [exact Hf | unfold emin, prec, emax; lia].
Qed.

(** [Number(n) === 0] exactly when the unsigned BigInt [n] is [0n]. *)
Lemma Number_strictEq_zero (n : N) :
  strictEq (Number (Z.of_N n)) zero = (n =? 0)%N.
Proof.
  destruct n as [|p]; [reflexivity|].
  simpl Z.of_N. destruct (Number_positive p) as [(m & e & H)|H];
    rewrite H; reflexivity.
Qed.

(** For a number, the truthiness test before [Number(v) > 0] is implied by
    the comparison. *)
Lemma gt_zero_truthy (x : number) : gt x zero = true -> truthyNumber x = true.
Proof.
  destruct x as [s|s| |s m e]; try destruct s; cbv; intros H;
    first [reflexivity | discriminate H].
Qed.

End NumberFacts.

(** ** The relay *)

Section RelayProperties.
Import JS Relay.

(** An upstream answer with a client-error status and a JSON body. *)
Definition upstreamNotFound : Upstream string :=
  mkUpstream 404 (Returns "not found").

Definition entityQuery : list (string * string) := [("entityId", "0x01")].

(** C9, as stated, fails: an upstream answer with status 404 and a JSON body
    is relayed with status 200, so the upstream status is not passed through. *)
Lemma relay_upstream_status_not_passed_through :
  status (handler (fun _ => Returns upstreamNotFound) entityQuery) = 200 /\
  status (handler (fun _ => Returns upstreamNotFound) entityQuery)
    <> upstream_status upstreamNotFound.
Proof. split; [reflexivity | discriminate]. Qed.

(** C9, amended: the relay answers 400 when [entityId] is missing (or
    empty), 500 when the upstream fetch fails or the upstream body is not
    JSON, and otherwise always 200, whatever the upstream status, with the
    upstream's parsed body serialized again and a permissive cross-origin
    header. *)
Theorem relay_answers (Json : Type) (fetch : string -> outcome (Upstream Json))
  (searchParams : list (string * string)) :
  let response := handler fetch searchParams in
  (searchParams_get searchParams "entityId" = None -> status response = 400) /\
  (searchParams_get searchParams "entityId" = Some EmptyString ->
   status response = 400) /\
  (forall entityId,
     searchParams_get searchParams "entityId" = Some entityId ->
     truthyString entityId = true ->
     (forall e, fetch (apiUrl entityId) = Throws e -> status response = 500) /\
     (forall upstream, fetch (apiUrl entityId) = Returns upstream ->
        (forall e, upstream_json upstream = Throws e -> status response = 500) /\
        (forall data, upstream_json upstream = Returns data ->
           status response = 200 /\
           body response = DataBody data /\
           In ("Access-Control-Allow-Origin", "*") (headers response)))).
Proof.
  cbv zeta. unfold handler.
  split; [intros ->; reflexivity|].
  split; [intros ->; reflexivity|].
  intros entityId -> Hid. rewrite Hid. cbn [negb].
  split.
  - intros e ->. reflexivity.
  - intros upstream ->. split.
    + intros e ->. reflexivity.
    + intros data ->. cbn. intuition.
Qed.

(** An upstream 404 with a JSON body, relayed. *)
Lemma relay_answers_witness :
  status (handler (fun _ => Returns upstreamNotFound) entityQuery) = 200 /\
  body (handler (fun _ => Returns upstreamNotFound) entityQuery)
    = DataBody "not found" /\
  In ("Access-Control-Allow-Origin", "*")
     (headers (handler (fun _ => Returns upstreamNotFound) entityQuery)).
Proof.
  destruct (relay_answers string (fun _ => Returns upstreamNotFound) entityQuery)
    as (_ & _ & H).
  destruct (H "0x01" eq_refl eq_refl) as (_ & Hup).
  destruct (Hup upstreamNotFound eq_refl) as (_ & Hdata).
  exact (Hdata "not found" eq_refl).
Defined.

End RelayProperties.

(** ** The direct-read revision *)

Section DirectReadProperties.
Import JS Effects DirectRead.

(** *** What each stage yields, as a function of the remote services *)

(** The address identity resolution passes on, if any. *)
Definition identityOf (w : World) (address : string) : option string :=
  if isEnsName address then
    match getEnsAddress w address with
    | Returns (Some a) => if truthyString a then Some a else None
    | _ => None
    end
  else if matchesAddress address then Some address else None.

(** The calls identity resolution issues. *)
Definition nameCalls (address : string) : list NetCall :=
  if isEnsName address then [GetEnsAddress address] else [].

(** The pair [(apiAllocation, apiError)] the off-chain fetch leaves. *)
Definition offChainAnswer (w : World) (entityID : string)
  : option ApiData * option string :=
  match fetch w (apiUrl w entityID) with
  | Throws e => (None, Some e)
  | Returns response =>
      if Response.ok response then
        match Response.json response with
        | Returns apiData => (apiData, None)
        | Throws e => (None, Some e)
        end
      else
        match Response.text response with
        | Returns _ =>
            (None, Some ("API returned status " ++ decimal (Response.status response)))
        | Throws e => (None, Some e)
        end
  end.

(** The off-chain fetch failed: transport failure, non-success status, or
    a body that is not JSON. *)
Definition offChainFailed (w : World) (entityID : string) : bool :=
  match fetch w (apiUrl w entityID) with
  | Throws _ => true
  | Returns response =>
      negb (Response.ok response) ||
      match Response.json response with
      | Throws _ => true
      | Returns _ => false
      end
  end.

(** The on-chain record with its [acceptedAmount] set to [n]. *)
Definition withAcceptedAmount (entityState : EntityState.t) (n : N)
  : EntityState.t :=
  EntityState.mk (EntityState.addr entityState) (EntityState.entityID entityState)
                 n (EntityState.bidTimestamp entityState)
                 (EntityState.refunded entityState)
                 (EntityState.cancelled entityState)
                 (EntityState.activeBid entityState).

(** A key of the API's answer that carries a positive number. *)
Definition carriesPositive (v : option number) : Prop :=
  exists x, v = Some x /\ gt x zero = true.

(** The name lookup completed without a bound address. *)
Definition unbound (r : option string) : bool :=
  match r with
  | Some a => negb (truthyString a)
  | None => true
  end.

(** *** Strings *)

Lemma hex_not_eth (s : string) :
  allHexDigits s = true -> endsWith s ".eth" = false.
Proof.
  induction s as [|c s IH]; [reflexivity|].
  cbn [allHexDigits endsWith]. intros H.
  apply andb_true_iff in H as [Hc Hs]. rewrite (IH Hs), orb_false_r.
  apply String.eqb_neq. intros Heq. inversion Heq; subst. discriminate Hc.
Qed.

Lemma literal_is_not_a_name (address : string) :
  matchesAddress address = true -> isEnsName address = false.
Proof.
  unfold matchesAddress, isEnsName.
  destruct address as [|c0 rest]; [discriminate|].
  destruct c0 as [[] [] [] [] [] [] [] []]; try discriminate.
  destruct rest as [|c1 digits]; [discriminate|].
  destruct c1 as [[] [] [] [] [] [] [] []]; try discriminate.
  intros H. apply andb_true_iff in H as [_ H].
  cbn. rewrite (hex_not_eth digits H). destruct digits; reflexivity.
Qed.


(** *** Running the stages *)

Lemma resolveIdentity_literal (w : World) (address : string) (m : Machine Result.t) :
  matchesAddress address = true ->
  resolveIdentity w address m = (Normal address, m).
Proof.
  intros H. unfold resolveIdentity.
  rewrite (literal_is_not_a_name address H), H. reflexivity.
Qed.

Lemma resolveIdentity_accepts (w : World) (address resolved : string)
  (m : Machine Result.t) :
  identityOf w address = Some resolved ->
  exists p,
    resolveIdentity w address m =
    (Normal resolved,
     mkMachine (mkUI (loading (ui m)) (result (ui m)) (error (ui m)) p)
               (calls m ++ nameCalls address)).
Proof.
  unfold identityOf, resolveIdentity, nameCalls.
  destruct (isEnsName address).
  - destruct (getEnsAddress w address) as [[a|]|e] eqn:E; try discriminate.
    destruct (truthyString a) eqn:Ha; try discriminate.
    intros [= <-]. eexists.
    unfold bind, tryCatch, setProgress, await. cbn. rewrite Ha.
    reflexivity.
  - destruct (matchesAddress address); try discriminate.
    intros [= <-]. exists (progress (ui m)). cbn. rewrite app_nil_r.
    destruct m as [[] ?]; reflexivity.
Qed.

Lemma fetchConfirmed_run (w : World) (entityID : string) (m : Machine Result.t) :
  exists p,
  fetchConfirmed w entityID m =
  (Normal (offChainAnswer w entityID),
   mkMachine (mkUI (loading (ui m)) (result (ui m)) (error (ui m)) p)
             (calls m ++ [Fetch (apiUrl w entityID)])).
Proof.
  eexists. unfold fetchConfirmed, offChainAnswer, bind, tryCatch, setProgress, await, settle, ret.
  cbn.
  destruct (fetch w (apiUrl w entityID)) as [response|e]; cbn; [|reflexivity].
  destruct (Response.ok response); cbn.
  - destruct (Response.json response); reflexivity.
  - destruct (Response.text response); reflexivity.
Qed.

Lemma checkAllocations_run (w : World) (address resolved entityID : string)
  (entityState : EntityState.t) (m : Machine Result.t) :
  truthyString address = true ->
  identityOf w address = Some resolved ->
  entityByAddress w resolved = Returns entityID ->
  entityStateByID w entityID = Returns entityState ->
  checkAllocations w address m =
  (Normal tt,
   mkMachine
     (mkUI false
           (Some (reconcile entityID entityState
                            (fst (offChainAnswer w entityID))
                            (snd (offChainAnswer w entityID))))
           EmptyString EmptyString)
     (calls m ++ nameCalls address ++
      [ReadEntityByAddress resolved; ReadEntityStateByID entityID;
       Fetch (apiUrl w entityID)])).
Proof.
  intros Ha Hid Hloc Hst. unfold checkAllocations. rewrite Ha. cbn [negb].
  remember (fetchConfirmed w) as F eqn:HF.
  unfold tryFinally, tryCatch, bind at 1 2 3 4 5. cbn.
  destruct (resolveIdentity_accepts w address resolved
              (mkMachine (mkUI true None EmptyString EmptyString) (calls m)) Hid)
    as [p Hr].
  rewrite Hr. cbn.
  unfold bind, locateEntity, readEntityState, setProgress, await, setResult.
  cbn. rewrite Hloc. cbn. rewrite Hst. cbn. subst F.
  match goal with
  | |- context [fetchConfirmed w entityID ?M] =>
      destruct (fetchConfirmed_run w entityID M) as [q Hf]; rewrite Hf
  end.
  cbn. rewrite <- !app_assoc. reflexivity.
Qed.
(** *** The classification *)

(** C1: [found] holds exactly when the on-chain amount is positive or the
    API's answer carries a positive [usdt_allocation] or [token_allocation];
    when found, the reported amount is [acceptedAmount / 1e6] whatever the
    API answered (a result that is not found has no [amount] key), and the
    API's answer is reported unchanged beside it. In particular
    [acceptedAmount = 0] with [usdt_allocation = 500] gives [found = true],
    [amount = 0] and the off-chain 500. *)
Theorem reconcile_classification (entityID : string) (entityState : EntityState.t)
  (apiAllocation : option ApiData) (apiError : option string) :
  let r := reconcile entityID entityState apiAllocation apiError in
  let onChain := div (Number (Z.of_N (EntityState.acceptedAmount entityState))) million in
  (Result.found r = true <->
     (0 < EntityState.acceptedAmount entityState)%N \/
     exists d, apiAllocation = Some d /\
       (carriesPositive (usdt_allocation d) \/ carriesPositive (token_allocation d))) /\
  Result.amount r = (if Result.found r then Some onChain else None) /\
  Result.apiAllocation r = apiAllocation /\
  (let r0 := reconcile entityID (withAcceptedAmount entityState 0)
                       (Some (mkApiData (Some (Number 500)) None None)) apiError in
   Result.found r0 = true /\ Result.amount r0 = Some zero /\
   option_map usdt_allocation (Result.apiAllocation r0) = Some (Some (Number 500))).
Proof.
  cbv zeta. unfold reconcile. rewrite Number_strictEq_zero.
  assert (Hpos : forall v, positiveAllocation v = true <-> carriesPositive v).
  { intros [x|]; unfold carriesPositive; cbn; split.
    - intros H. apply andb_true_iff in H as [_ H]. eauto.
    - intros (y & [= <-] & H). rewrite H, (gt_zero_truthy x H). reflexivity.
    - discriminate.
    - intros (y & [=] & _). }
  assert (Hapi : hasApiAllocation apiAllocation = true <->
                 exists d, apiAllocation = Some d /\
                   (carriesPositive (usdt_allocation d) \/
                    carriesPositive (token_allocation d))).
  { destruct apiAllocation as [d|]; cbn; split.
    - intros H. apply orb_true_iff in H. exists d. split; [reflexivity|].
      destruct H as [H|H]; [left|right]; apply Hpos; exact H.
    - intros (d' & [= <-] & H). apply orb_true_iff.
      destruct H as [H|H]; [left|right]; apply Hpos; exact H.
    - discriminate.
    - intros (d' & [=] & _). }
  split; [split|split; [|split]].
  - destruct (N.eqb_spec (EntityState.acceptedAmount entityState) 0) as [E|E];
      destruct (hasApiAllocation apiAllocation) eqn:Hh; cbn; intros H;
      try discriminate H; first [right; apply Hapi; reflexivity | left; lia].
  - intros [H|H].
    + destruct (N.eqb_spec (EntityState.acceptedAmount entityState) 0) as [E|E];
        [lia|reflexivity].
    + apply Hapi in H. rewrite H, andb_false_r. reflexivity.
  - destruct ((EntityState.acceptedAmount entityState =? 0)%N &&
              negb (hasApiAllocation apiAllocation)); reflexivity.
  - destruct ((EntityState.acceptedAmount entityState =? 0)%N &&
              negb (hasApiAllocation apiAllocation)); reflexivity.
  - repeat split.
Qed.

(** *** Identity resolution *)

(** A naming service that knows no name, and contract and API endpoints
    that are down. *)
Definition quietWorld : World :=
  mkWorld false (fun _ => Returns None) (fun _ => Throws "unreachable")
          (fun _ => Throws "unreachable") (fun _ => Throws "unreachable").

(** The component before its first run. *)
Definition idle : Machine Result.t :=
  mkMachine (mkUI false None EmptyString EmptyString) [].

Definition unprefixedLiteral : string := "aaaaaaaaaaaaaaaaaaaaaaaaaaaaaaaaaaaaaaaa".
Definition upperLiteral : string := "0xAAAAAAAAAAAAAAAAAAAAAAAAAAAAAAAAAAAAAAAA".

(** C2, as stated, fails: forty hexadecimal digits without the [0x] prefix
    are taken for a name; the naming service is called, and the input is
    rejected when it knows no such name. *)
Lemma unprefixed_literal_takes_name_resolution :
  resolveIdentity quietWorld unprefixedLiteral idle =
  (Return_,
   mkMachine (mkUI false None NameNotFound EmptyString)
             [GetEnsAddress unprefixedLiteral]).
Proof. reflexivity. Qed.

(** C2, amended: an input that is [0x] followed by exactly forty
    hexadecimal digits, in any letter-casing of the digits, is accepted with
    no network call and no state change, and is passed on as typed, without
    case-normalization; so two casings of one address are both accepted and
    the strings passed on agree up to letter case. An input that does not
    start with [0x], forty hexadecimal digits included, is looked up as a
    name: the naming service is called with it. *)
Theorem literal_address_accepted_as_is (w : World) (address : string)
  (m : Machine Result.t) :
  (matchesAddress address = true ->
   resolveIdentity w address m = (Normal address, m) /\
   forall address',
     matchesAddress address' = true ->
     toLowerCase address' = toLowerCase address ->
     exists resolved',
       resolveIdentity w address' m = (Normal resolved', m) /\
       toLowerCase resolved' = toLowerCase address) /\
  (startsWith address "0x" = false ->
   calls (snd (resolveIdentity w address m)) = (calls m ++ [GetEnsAddress address])%list).
Proof.
  split.
  - intros H. split; [apply resolveIdentity_literal; exact H|].
    intros address' H' Hcase. exists address'.
    split; [apply resolveIdentity_literal; exact H'|exact Hcase].
  - intros H. unfold resolveIdentity, isEnsName. rewrite H. cbn [negb orb].
    unfold bind, tryCatch, setProgress, await, reject, setError, setLoading,
      return_, ret. cbn.
    destruct (getEnsAddress w address) as [[a|]|e]; cbn; try reflexivity.
    destruct (truthyString a); reflexivity.
Qed.

(** An upper-case literal is passed on unchanged, with nothing called. *)
Lemma literal_address_accepted_as_is_witness :
  resolveIdentity quietWorld upperLiteral idle = (Normal upperLiteral, idle).
Proof.
  apply (proj1 (literal_address_accepted_as_is quietWorld upperLiteral idle) eq_refl).
Defined.

(** C3: an input that is not a valid literal and, where it is looked up as
    a name, has no bound address, is rejected with [InvalidAddressFormat]
    or [NameNotFound]; no address is passed on, no contract is read, and the
    run ends with no result. *)
Theorem unresolvable_identity_fails (w : World) (address : string)
  (m : Machine Result.t) :
  matchesAddress address = false ->
  (isEnsName address = true ->
   exists r, getEnsAddress w address = Returns r /\ unbound r = true) ->
  exists m',
    resolveIdentity w address m = (Return_, m') /\
    (error (ui m') = InvalidAddressFormat \/ error (ui m') = NameNotFound) /\
    error (ui m') = (if isEnsName address then NameNotFound else InvalidAddressFormat) /\
    calls m' = (calls m ++ nameCalls address)%list /\
    (truthyString address = true ->
     exists final,
       checkAllocations w address m = (Return_, final) /\
       result (ui final) = None /\
       error (ui final) = error (ui m') /\
       calls final = (calls m ++ nameCalls address)%list).
Proof.
  intros Hlit Hname.
  assert (Hrun : forall m0, exists m',
            resolveIdentity w address m0 = (Return_, m') /\
            error (ui m') = (if isEnsName address then NameNotFound
                             else InvalidAddressFormat) /\
            result (ui m') = result (ui m0) /\
            calls m' = (calls m0 ++ nameCalls address)%list).
  { intros m0. unfold resolveIdentity, nameCalls.
    destruct (isEnsName address).
    - destruct (Hname eq_refl) as (r & Hr & Hu).
      unfold bind, tryCatch, setProgress, await, reject, setError, setLoading,
        return_. cbn. rewrite Hr. cbn.
      destruct r as [a|]; cbn in Hu |- *.
      + apply negb_true_iff in Hu. rewrite Hu. cbn. eexists. repeat split.
      + eexists. repeat split.
    - rewrite Hlit. cbn. eexists. repeat split. cbn. rewrite app_nil_r. reflexivity. }
  destruct (Hrun m) as (m' & Hm' & He & _ & Hc).
  exists m'. split; [exact Hm'|]. split.
  { rewrite He. destruct (isEnsName address); [right|left]; reflexivity. }
  split; [exact He|]. split; [exact Hc|].
  intros Ha. unfold checkAllocations. rewrite Ha. cbn [negb].
  unfold tryFinally, tryCatch, bind at 1 2 3 4 5. cbn.
  destruct (Hrun (mkMachine (mkUI true None EmptyString EmptyString) (calls m)))
    as (m1 & Hm1 & He1 & Hr1 & Hc1).
  rewrite Hm1. cbn. eexists. split; [reflexivity|]. cbn.
  rewrite Hr1, He1, He, Hc1. repeat split.
Qed.

(** A name the naming service does not know. *)
Lemma unresolvable_identity_fails_witness :
  exists m',
    resolveIdentity quietWorld "nobody.eth" idle = (Return_, m') /\
    (error (ui m') = InvalidAddressFormat \/ error (ui m') = NameNotFound) /\
    error (ui m') = NameNotFound /\
    calls m' = [GetEnsAddress "nobody.eth"] /\
    (truthyString "nobody.eth" = true ->
     exists final,
       checkAllocations quietWorld "nobody.eth" idle = (Return_, final) /\
       result (ui final) = None /\
       error (ui final) = error (ui m') /\
       calls final = [GetEnsAddress "nobody.eth"]).
Proof.
  apply (unresolvable_identity_fails quietWorld "nobody.eth" idle eq_refl).
  intros _. exists None. split; reflexivity.
Defined.

(** C10: on the empty input the handler sets the prompt message and
    returns: no call is issued, and [loading], [result] and [progress] keep
    the values the previous run left. *)
Theorem empty_input_only_sets_error (w : World) (m : Machine Result.t) :
  checkAllocations w EmptyString m =
  (Return_,
   mkMachine (mkUI (loading (ui m)) (result (ui m)) EmptyInput (progress (ui m)))
             (calls m)).
Proof. reflexivity. Qed.

(** *** The zero entity and the off-chain failure *)

(** C4: when the locator returns the all-zero [EntityID], nothing is
    raised: the state read and the off-chain fetch are issued with it and the
    run ends with a result, carrying the zero [EntityID], and no error; when
    the chain holds no amount for it and the API reports no positive
    allocation, that result is not found. *)
Theorem zero_entity_is_absent_not_error (w : World) (address resolved : string)
  (entityState : EntityState.t) (m : Machine Result.t) :
  truthyString address = true ->
  identityOf w address = Some resolved ->
  entityByAddress w resolved = Returns zeroEntityID ->
  entityStateByID w zeroEntityID = Returns entityState ->
  exists final r,
    checkAllocations w address m = (Normal tt, final) /\
    error (ui final) = EmptyString /\
    result (ui final) = Some r /\
    Result.entityID r = zeroEntityID /\
    In (ReadEntityStateByID zeroEntityID) (calls final) /\
    In (Fetch (apiUrl w zeroEntityID)) (calls final) /\
    (EntityState.acceptedAmount entityState = 0%N ->
     hasApiAllocation (fst (offChainAnswer w zeroEntityID)) = false ->
     Result.found r = false).
Proof.
  intros Ha Hid Hloc Hst.
  rewrite (checkAllocations_run w address resolved zeroEntityID entityState m
             Ha Hid Hloc Hst).
  do 2 eexists. split; [reflexivity|]. cbn [ui error result calls].
  split; [reflexivity|]. split; [reflexivity|].
  split; [unfold reconcile; match goal with |- context [if ?c then _ else _] =>
                              destruct c end; reflexivity|].
  split; [apply in_or_app; right; apply in_or_app; right; cbn; auto|].
  split; [apply in_or_app; right; apply in_or_app; right; cbn; auto|].
  intros Hzero Hapi.
  unfold reconcile. rewrite Number_strictEq_zero, Hzero, Hapi. reflexivity.
Qed.

(** A world where the address is unknown to the contract: the locator
    returns the zero [EntityID], whose state is empty, and the API answers
    with an object that has no allocation. *)
Definition emptyState : EntityState.t :=
  EntityState.mk "0x0000000000000000000000000000000000000000" zeroEntityID
                 0 0 false false (0%N, 0%N).

Definition unregisteredWorld : World :=
  mkWorld false (fun _ => Returns None) (fun _ => Returns zeroEntityID)
          (fun _ => Returns emptyState)
          (fun _ => Returns (Response.mk 200 (Returns (Some (mkApiData None None None)))
                                        (Returns "{}"))).

(** An address the contract does not know ends as a plain not-found. *)
Lemma zero_entity_is_absent_not_error_witness :
  exists final r,
    checkAllocations unregisteredWorld upperLiteral idle = (Normal tt, final) /\
    error (ui final) = EmptyString /\
    result (ui final) = Some r /\
    Result.entityID r = zeroEntityID /\
    Result.found r = false.
Proof.
  destruct (zero_entity_is_absent_not_error unregisteredWorld upperLiteral
              upperLiteral emptyState idle eq_refl eq_refl eq_refl eq_refl)
    as (final & r & Hrun & Herr & Hres & Hid & _ & _ & Hfound).
  exists final, r. repeat split; try assumption. apply Hfound; reflexivity.
Defined.

(** C8: when the off-chain fetch fails (transport failure, non-success
    status, or a body that is not JSON) the client, after its one call to the
    API's URL, yields [null] and a description of that failure: the message
    thrown by [fetch], by [json()] or by [text()], or else
    [API returned status] followed by the status. The run still completes
    normally, with that call the last of its calls, no error set, and a
    result that records the description as [apiError], has no
    [apiAllocation], and is found exactly when the on-chain amount is
    positive. *)
Theorem offchain_failure_is_recorded_not_raised (w : World)
  (address resolved entityID : string) (entityState : EntityState.t)
  (m : Machine Result.t) :
  truthyString address = true ->
  identityOf w address = Some resolved ->
  entityByAddress w resolved = Returns entityID ->
  entityStateByID w entityID = Returns entityState ->
  offChainFailed w entityID = true ->
  exists description final r,
    match fetch w (apiUrl w entityID) with
    | Throws cause => description = cause
    | Returns response =>
        if Response.ok response then
          Response.json response = Throws description
        else
          match Response.text response with
          | Returns _ =>
              description =
              ("API returned status " ++ decimal (Response.status response))%string
          | Throws cause => description = cause
          end
    end /\
    (forall m0,
       fetchConfirmed w entityID m0 =
       (Normal (None, Some description),
        mkMachine (mkUI (loading (ui m0)) (result (ui m0)) (error (ui m0))
                        "🌐 Fetching confirmed allocation from API...")
                  (calls m0 ++ [Fetch (apiUrl w entityID)]))) /\
    checkAllocations w address m = (Normal tt, final) /\
    calls final =
      (calls m ++ nameCalls address ++
       [ReadEntityByAddress resolved; ReadEntityStateByID entityID;
        Fetch (apiUrl w entityID)])%list /\
    error (ui final) = EmptyString /\
    result (ui final) = Some r /\
    Result.apiAllocation r = None /\
    Result.apiError r = Some description /\
    (Result.found r = true <-> (0 < EntityState.acceptedAmount entityState)%N).
Proof.
  intros Ha Hid Hloc Hst Hfail.
  rewrite (checkAllocations_run w address resolved entityID entityState m
             Ha Hid Hloc Hst).
  assert (Hfound : forall description,
            Result.found (reconcile entityID entityState None (Some description))
              = true <-> (0 < EntityState.acceptedAmount entityState)%N).
  { intros description. unfold reconcile. rewrite Number_strictEq_zero.
    cbn [hasApiAllocation negb]. rewrite andb_true_r.
    destruct (N.eqb_spec (EntityState.acceptedAmount entityState) 0) as [E|E]; cbn.
    - split; intros; first [discriminate | lia].
    - split; intros; first [reflexivity | lia]. }
  assert (Hans : exists description,
            offChainAnswer w entityID = (None, Some description) /\
            (forall m0,
               fetchConfirmed w entityID m0 =
               (Normal (None, Some description),
                mkMachine (mkUI (loading (ui m0)) (result (ui m0)) (error (ui m0))
                                "🌐 Fetching confirmed allocation from API...")
                          (calls m0 ++ [Fetch (apiUrl w entityID)]))) /\
            match fetch w (apiUrl w entityID) with
            | Throws cause => description = cause
            | Returns response =>
                if Response.ok response then
                  Response.json response = Throws description
                else
                  match Response.text response with
                  | Returns _ =>
                      description =
                      ("API returned status "
                       ++ decimal (Response.status response))%string
                  | Throws cause => description = cause
                  end
            end).
  { unfold offChainFailed in Hfail.
    unfold offChainAnswer, fetchConfirmed, bind, tryCatch, setProgress, await,
      settle, ret. cbn.
    destruct (fetch w (apiUrl w entityID)) as [response|e]; cbn;
      [|eexists; repeat split].
    destruct (Response.ok response); cbn in *.
    - destruct (Response.json response) as [apiData|e]; [discriminate|].
      eexists; repeat split.
    - destruct (Response.text response); eexists; repeat split. }
  destruct Hans as (description & Hans & Hclient & Htied).
  rewrite Hans. exists description. do 2 eexists.
  split; [exact Htied|]. split; [exact Hclient|].
  split; [reflexivity|]. cbn [ui calls error result fst snd].
  split; [reflexivity|]. split; [reflexivity|]. split; [reflexivity|].
  split; [unfold reconcile; destruct (_ && _); reflexivity|].
  split; [unfold reconcile; destruct (_ && _); reflexivity|]. apply Hfound.
Qed.

(** A registered entity with 2.5 units on chain, behind a relay that
    answers 500. *)
Definition fundedState : EntityState.t :=
  EntityState.mk upperLiteral "0x000000000000000000000000000000a1"
                 2500000 1700000000 false false (0%N, 0%N).

Definition relayDownWorld : World :=
  mkWorld false (fun _ => Returns None)
          (fun _ => Returns "0x000000000000000000000000000000a1")
          (fun _ => Returns fundedState)
          (fun _ => Returns (Response.mk 500 (Throws "Unexpected token")
                                        (Returns "Failed to fetch allocation data"))).

(** The on-chain amount is reported with the relay's status beside it. *)
Lemma offchain_failure_is_recorded_not_raised_witness :
  exists final r,
    checkAllocations relayDownWorld upperLiteral idle = (Normal tt, final) /\
    calls final =
      [ReadEntityByAddress upperLiteral;
       ReadEntityStateByID "0x000000000000000000000000000000a1";
       Fetch "/.netlify/functions/allocation?entityId=0x000000000000000000000000000000a1"] /\
    error (ui final) = EmptyString /\
    result (ui final) = Some r /\
    Result.apiAllocation r = None /\
    Result.apiError r = Some "API returned status 500" /\
    Result.found r = true.
Proof.
  destruct (offchain_failure_is_recorded_not_raised relayDownWorld upperLiteral
              upperLiteral "0x000000000000000000000000000000a1" fundedState idle
              eq_refl eq_refl eq_refl eq_refl eq_refl)
    as (description & final & r & Htied & _ & Hrun & Hcalls & Herr & Hres & Hapi
        & Hdesc & Hfound).
  cbn in Htied. subst description.
  exists final, r. repeat split; try assumption.
  apply Hfound. reflexivity.
Defined.

(** The settled case: 2,500,000 on chain is reported as 2.5, beside an
    API answer of 2.5 and no API error. *)
Definition settledWorld : World :=
  mkWorld false (fun _ => Returns None)
          (fun _ => Returns "0x000000000000000000000000000000a1")
          (fun _ => Returns fundedState)
          (fun _ => Returns
             (Response.mk 200
                (Returns (Some (mkApiData (Some (div (Number 5) (Number 2))) None None)))
                (Returns "{}"))).

Example settled_allocation_run :
  let final := snd (checkAllocations settledWorld upperLiteral idle) in
  error (ui final) = EmptyString /\
  option_map Result.found (result (ui final)) = Some true /\
  option_map Result.amount (result (ui final)) = Some (Some (div (Number 5) (Number 2))) /\
  option_map Result.refunded (result (ui final)) = Some (Some false) /\
  option_map Result.apiError (result (ui final)) = Some None.
Proof. vm_compute. repeat split. Qed.

End DirectReadProperties.

(** ** The event-scan revision *)

Section EventScanProperties.
Import JS Effects EventScan.

(** *** Vocabulary *)

(** The ranges of [l] tile [[lo, hi]]: the first starts at [lo], none is
    empty, each next one starts right after the one before, and the last
    ends at [hi]. *)
Fixpoint consecutive (lo : Z) (l : list (Z * Z)) (hi : Z) : Prop :=
  match l with
  | [] => lo = hi + 1
  | (f, t) :: rest => f = lo /\ f <= t /\ consecutive (t + 1) rest hi
  end.

(** The number of blocks in a closed range. *)
Definition width (c : Z * Z) : Z := snd c - fst c + 1.

(** The log query for a range. *)
Definition query (c : Z * Z) : NetCall := GetLogs (fst c) (snd c).

(** The queries issued over a list of ranges, stopping at the first range
    whose query throws or whose logs [push] refuses, and what the scan
    yields. *)
Fixpoint scanRanges (w : World) (ranges : list (Z * Z)) (allLogs : list Log.t)
  : list (Z * Z) * outcome (list Log.t) :=
  match ranges with
  | [] => ([], Returns allLogs)
  | c :: rest =>
      match getLogs w (fst c) (snd c) with
      | Throws e => ([c], Throws e)
      | Returns logs =>
          match push w allLogs logs with
          | Throws e => ([c], Throws e)
          | Returns allLogs' =>
              let (issued, o) := scanRanges w rest allLogs' in
              (c :: issued, o)
          end
      end
  end.

(** A range the loop gets past: its query returns, with no more logs than
    one call takes as arguments. *)
Definition accumulates (w : World) (c : Z * Z) : Prop :=
  exists logs, getLogs w (fst c) (snd c) = Returns logs /\
               (N.of_nat (List.length logs) <= argumentLimit w)%N.

(** A range at which the loop is left, and the message it is left with:
    the query throws, or it returns more logs than one call takes. *)
Definition failsWith (w : World) (c : Z * Z) (cause : string) : Prop :=
  getLogs w (fst c) (snd c) = Throws cause \/
  exists logs, getLogs w (fst c) (snd c) = Returns logs /\
               (argumentLimit w < N.of_nat (List.length logs))%N /\
               cause = rangeErrorMessage w.

(** The logs a range holds; none when its query throws. *)
Definition chunkLogs (w : World) (c : Z * Z) : list Log.t :=
  match getLogs w (fst c) (snd c) with
  | Returns logs => logs
  | Throws _ => []
  end.

(** Block numbers never decrease along [logs], starting from [lo]. *)
Fixpoint ascendingFrom (lo : Z) (logs : list Log.t) : bool :=
  match logs with
  | [] => true
  | l :: rest => (lo <=? Log.blockNumber l) && ascendingFrom (Log.blockNumber l) rest
  end.

(** What the node answers for a range: logs of that range, in block order. *)
Definition withinChunk (c : Z * Z) (logs : list Log.t) : bool :=
  ascendingFrom (fst c) logs && forallb (fun l => Log.blockNumber l <=? snd c) logs.

Definition answersInOrder (w : World) (c : Z * Z) : Prop :=
  exists logs, getLogs w (fst c) (snd c) = Returns logs /\ withinChunk c logs = true.

(** *** The loop *)

Lemma chunkRanges_step (S H : Z) :
  S <= H -> chunkRanges S H = (S, chunkEnd S H) :: chunkRanges (S + CHUNK_SIZE) H.
Proof.
  intros. rewrite chunkRanges_equation_1.
  destruct (Z_le_dec S H); [reflexivity|lia].
Qed.

Lemma chunkRanges_done (S H : Z) : H < S -> chunkRanges S H = [].
Proof.
  intros. rewrite chunkRanges_equation_1.
  destruct (Z_le_dec S H); [lia|reflexivity].
Qed.

Lemma scanLoop_step (w : World) (S H : Z) (allLogs : list Log.t) :
  S <= H ->
  scanLoop w S H allLogs =
  bind (setProgress ("📦 Scanning blocks " ++ decimal S ++ " to "
                     ++ decimal (chunkEnd S H) ++ "..."))
       (fun _ => bind (await (GetLogs S (chunkEnd S H)) (getLogs w S (chunkEnd S H)))
                      (fun logs =>
                         bind (settle (push w allLogs logs))
                              (fun allLogs' => scanLoop w (S + CHUNK_SIZE) H allLogs'))).
Proof.
  intros. rewrite scanLoop_equation_1.
  destruct (Z_le_dec S H); [reflexivity|lia].
Qed.

Lemma scanLoop_done (w : World) (S H : Z) (allLogs : list Log.t) :
  H < S -> scanLoop w S H allLogs = ret allLogs.
Proof.
  intros. rewrite scanLoop_equation_1.
  destruct (Z_le_dec S H); [lia|reflexivity].
Qed.

(** Induction along the loop: from the next chunk to this one. *)
Lemma chunk_induction (P : Z -> Z -> Prop) :
  (forall S H, (S <= H -> P (S + CHUNK_SIZE) H) -> P S H) ->
  forall S H, P S H.
Proof.
  intros step S H.
  remember (Z.to_nat (H - S + 1)) as n eqn:Hn. revert S Hn.
  induction n as [n IH] using lt_wf_ind. intros S Hn.
  apply step. intros Hle. apply (IH (Z.to_nat (H - (S + CHUNK_SIZE) + 1))).
  - unfold CHUNK_SIZE. lia.
  - reflexivity.
Qed.

Lemma chunkEnd_bounds (S H : Z) :
  S <= H -> S <= chunkEnd S H <= H /\ chunkEnd S H - S + 1 <= CHUNK_SIZE.
Proof.
  intros. unfold chunkEnd, CHUNK_SIZE.
  destruct (Z.gtb_spec (S + 50000 - 1) H); lia.
Qed.

Lemma chunkRanges_consecutive : forall S H,
  S <= H -> consecutive S (chunkRanges S H) H.
Proof.
  apply (chunk_induction (fun S H => S <= H -> consecutive S (chunkRanges S H) H)).
  intros S H IH Hle. rewrite (chunkRanges_step S H Hle). cbn [consecutive].
  pose proof (chunkEnd_bounds S H Hle) as [Hb _].
  split; [reflexivity|]. split; [lia|].
  unfold chunkEnd, CHUNK_SIZE in *.
  destruct (Z.gtb_spec (S + 50000 - 1) H) as [Hgt|Hng].
  - rewrite chunkRanges_done by lia. reflexivity.
  - destruct (Z.eq_dec (S + 50000 - 1) H) as [E|E].
    + rewrite chunkRanges_done by lia. cbn. lia.
    + replace (S + 50000 - 1 + 1) with (S + 50000) by lia. apply IH; lia.
Qed.

Lemma chunkRanges_width : forall S H,
  Forall (fun c => 1 <= width c <= CHUNK_SIZE) (chunkRanges S H).
Proof.
  apply (chunk_induction
           (fun S H => Forall (fun c => 1 <= width c <= CHUNK_SIZE) (chunkRanges S H))).
  intros S H IH. destruct (Z_le_dec S H) as [Hle|Hgt].
  - rewrite (chunkRanges_step S H Hle). constructor; [|apply IH; exact Hle].
    pose proof (chunkEnd_bounds S H Hle). unfold width. cbn. lia.
  - rewrite chunkRanges_done by lia. constructor.
Qed.

(** A range of 120,000 blocks takes three chunks. *)
Lemma chunkRanges_120000 (S H : Z) :
  H - S + 1 = 120000 ->
  chunkRanges S H =
  [(S, S + 49999); (S + 50000, S + 99999); (S + 100000, S + 119999)].
Proof.
  intros H120.
  rewrite (chunkRanges_step S H) by lia.
  rewrite (chunkRanges_step (S + CHUNK_SIZE) H) by (unfold CHUNK_SIZE; lia).
  rewrite (chunkRanges_step (S + CHUNK_SIZE + CHUNK_SIZE) H)
    by (unfold CHUNK_SIZE; lia).
  rewrite chunkRanges_done by (unfold CHUNK_SIZE; lia).
  unfold chunkEnd, CHUNK_SIZE.
  repeat match goal with
         | |- context [(?a >? ?b)] => destruct (Z.gtb_spec a b); try lia
         end.
  replace (S + 50000 - 1) with (S + 49999) by lia.
  replace (S + 50000 + 50000 - 1) with (S + 99999) by lia.
  replace (S + 50000 + 50000) with (S + 100000) by lia.
  replace H with (S + 119999) by lia. reflexivity.
Qed.

(** How a settled scan completes the loop. *)
Definition completionOf {A} (o : outcome A) : completion A :=
  match o with
  | Returns a => Normal a
  | Throws e => Throw e
  end.

(** The loop issues the queries of [scanRanges] over [chunkRanges], in that
    order, touches no state variable but [progress], and completes as the
    scan settles. *)
Lemma scanLoop_run (w : World) : forall S H (allLogs : list Log.t)
  (m : Machine Result.t),
  exists p,
    scanLoop w S H allLogs m =
    (completionOf (snd (scanRanges w (chunkRanges S H) allLogs)),
     mkMachine (mkUI (loading (ui m)) (result (ui m)) (error (ui m)) p)
               (calls m ++ map query (fst (scanRanges w (chunkRanges S H) allLogs)))).
Proof.
  apply (chunk_induction
    (fun S H => forall allLogs m, exists p,
       scanLoop w S H allLogs m =
       (completionOf (snd (scanRanges w (chunkRanges S H) allLogs)),
        mkMachine (mkUI (loading (ui m)) (result (ui m)) (error (ui m)) p)
                  (calls m ++ map query (fst (scanRanges w (chunkRanges S H) allLogs)))))).
  intros S H IH allLogs m. destruct (Z_le_dec S H) as [Hle|Hgt].
  - rewrite (scanLoop_step w S H allLogs Hle), (chunkRanges_step S H Hle).
    cbn [scanRanges fst snd]. unfold bind at 1 2 3, setProgress, await, settle. cbn.
    destruct (getLogs w S (chunkEnd S H)) as [logs|e]; cbn; [|eexists; reflexivity].
    destruct (push w allLogs logs) as [allLogs'|e]; cbn; [|eexists; reflexivity].
    match goal with
    | |- context [scanLoop w _ H _ ?M] =>
        destruct (IH Hle allLogs' M) as [p Hp]
    end.
    rewrite Hp. cbn.
    destruct (scanRanges w (chunkRanges (S + CHUNK_SIZE) H) allLogs')
      as [issued o]. cbn.
    exists p. rewrite <- app_assoc. reflexivity.
  - rewrite scanLoop_done, chunkRanges_done by lia. cbn.
    exists (progress (ui m)). rewrite app_nil_r. destruct m as [[] ?]. reflexivity.
Qed.

Lemma scanRanges_prefix (w : World) : forall ranges allLogs,
  exists rest, ranges = (fst (scanRanges w ranges allLogs) ++ rest)%list.
Proof.
  induction ranges as [|c ranges IH]; intros allLogs; cbn.
  - exists []. reflexivity.
  - destruct (getLogs w (fst c) (snd c)) as [logs|e]; cbn;
      [|exists ranges; reflexivity].
    destruct (push w allLogs logs) as [allLogs'|e]; cbn;
      [|exists ranges; reflexivity].
    destruct (IH allLogs') as [rest Hrest].
    destruct (scanRanges w ranges allLogs') as [issued o]. cbn in *.
    exists rest. congruence.
Qed.

Lemma push_fits (w : World) (allLogs logs : list Log.t) :
  (N.of_nat (List.length logs) <= argumentLimit w)%N ->
  push w allLogs logs = Returns (allLogs ++ logs)%list.
Proof.
  intros Hfit. unfold push.
  destruct (N.leb_spec (N.of_nat (List.length logs)) (argumentLimit w));
    [reflexivity|lia].
Qed.

Lemma push_floods (w : World) (allLogs logs : list Log.t) :
  (argumentLimit w < N.of_nat (List.length logs))%N ->
  push w allLogs logs = Throws (rangeErrorMessage w).
Proof.
  intros Hflood. unfold push.
  destruct (N.leb_spec (N.of_nat (List.length logs)) (argumentLimit w));
    [lia|reflexivity].
Qed.

Lemma scanRanges_all_return (w : World) : forall ranges allLogs,
  Forall (accumulates w) ranges ->
  scanRanges w ranges allLogs =
  (ranges, Returns (allLogs ++ flat_map (chunkLogs w) ranges)%list).
Proof.
  induction ranges as [|c ranges IH]; intros allLogs Hall; cbn.
  - rewrite app_nil_r. reflexivity.
  - inversion Hall as [|? ? (logs & Hlogs & Hfit) Hrest]; subst.
    unfold chunkLogs at 1.
    rewrite Hlogs, (push_fits w allLogs logs Hfit), (IH _ Hrest), app_assoc.
    reflexivity.
Qed.

(** With a failing range among them, the scan is left at a failing range,
    the first one, and with that range's message. *)
Lemma scanRanges_some_fails (w : World) : forall ranges allLogs,
  Exists (fun c => exists e, failsWith w c e) ranges ->
  exists c e,
    In c ranges /\ failsWith w c e /\
    snd (scanRanges w ranges allLogs) = Throws e.
Proof.
  induction ranges as [|c ranges IH]; intros allLogs Hex;
    [inversion Hex|].
  cbn [scanRanges]. destruct (getLogs w (fst c) (snd c)) as [logs|e] eqn:Hc.
  - destruct (N.leb_spec (N.of_nat (List.length logs)) (argumentLimit w))
      as [Hfit|Hflood].
    + rewrite (push_fits w allLogs logs Hfit).
      inversion Hex as [? ? [e He]|? ? Hrest]; subst.
      * destruct He as [He|(logs' & He & Hflood & _)]; [congruence|].
        rewrite Hc in He. injection He as <-. lia.
      * destruct (IH (allLogs ++ logs)%list Hrest) as (c' & e & Hin & He & Hs).
        exists c', e. split; [right; exact Hin|]. split; [exact He|].
        destruct (scanRanges w ranges (allLogs ++ logs)); exact Hs.
    + rewrite (push_floods w allLogs logs Hflood).
      exists c, (rangeErrorMessage w). split; [left; reflexivity|].
      split; [|reflexivity]. right. exists logs. repeat split; assumption.
  - exists c, e. split; [left; reflexivity|]. split; [left; exact Hc|reflexivity].
Qed.

(** C5: for a start block [S] and a head [H] with [S <= H], the ranges the
    loop goes through tile [[S, H]] consecutively, in ascending order, each
    at most 50,000 blocks wide; 120,000 blocks give exactly three ranges, of
    50,000, 50,000 and 20,000 blocks; and the queries the loop issues are
    those ranges, in that order: always a beginning of them, and all of
    them when every query returns no more logs than one call to [push]
    takes. *)
Theorem scan_chunks_tile_the_range (w : World) (S H : Z) (allLogs : list Log.t)
  (m : Machine Result.t) :
  S <= H ->
  consecutive S (chunkRanges S H) H /\
  Forall (fun c => 1 <= width c <= 50000) (chunkRanges S H) /\
  (H - S + 1 = 120000 ->
   chunkRanges S H =
   [(S, S + 49999); (S + 50000, S + 99999); (S + 100000, S + 119999)] /\
   map width (chunkRanges S H) = [50000; 50000; 20000]) /\
  exists issued rest,
    calls (snd (scanLoop w S H allLogs m)) = (calls m ++ map query issued)%list /\
    chunkRanges S H = (issued ++ rest)%list /\
    (Forall (accumulates w) (chunkRanges S H) -> rest = []).
Proof.
  intros Hle. split; [apply chunkRanges_consecutive; exact Hle|].
  split; [apply chunkRanges_width|]. split.
  - intros H120. pose proof (chunkRanges_120000 S H H120) as E.
    split; [exact E|]. rewrite E. unfold width. cbn [map fst snd].
    f_equal; [lia|]. f_equal; [lia|]. f_equal; lia.
  - destruct (scanLoop_run w S H allLogs m) as [p Hp]. rewrite Hp. cbn [snd calls].
    destruct (scanRanges_prefix w (chunkRanges S H) allLogs) as [rest Hrest].
    exists (fst (scanRanges w (chunkRanges S H) allLogs)), rest.
    split; [reflexivity|]. split; [exact Hrest|].
    intros Hall. rewrite (scanRanges_all_return w _ allLogs Hall) in Hrest.
    cbn [fst] in Hrest. rewrite <- (app_nil_r (chunkRanges S H)) in Hrest at 1.
    apply app_inv_head in Hrest. congruence.
Qed.

(** *** The whole handler *)

(** The run once the head block and the entity are known: the result is
    rebuilt from the scanned logs when the scan settles, and only the error
    is set when it throws. *)
Lemma scan_checkAllocations_run (w : World) (address entityID : string) (H : Z)
  (m : Machine Result.t) :
  matchesAddress address = true ->
  getBlockNumber w = Returns H ->
  entityByAddress w address = Returns entityID ->
  checkAllocations w address m =
  (Normal tt,
   mkMachine
     (match snd (scanRanges w (chunkRanges START_BLOCK H) []) with
      | Returns allLogs =>
          mkUI false (Some (reconstruct entityID allLogs)) EmptyString EmptyString
      | Throws e => mkUI false None (ChainReadError e) EmptyString
      end)
     (calls m ++ [GetBlockNumber; ReadEntityByAddress address] ++
      map query (fst (scanRanges w (chunkRanges START_BLOCK H) [])))).
Proof.
  intros Hlit Hhead Hloc. unfold checkAllocations.
  assert (Ha : truthyString address = true)
    by (destruct address; [discriminate Hlit|reflexivity]).
  rewrite Ha, Hlit. cbn [negb].
  remember (scanLoop w START_BLOCK) as loop eqn:Hloop.
  unfold tryFinally, tryCatch, bind, setLoading, setError, setResult, setProgress,
    await. cbn. rewrite Hhead. cbn. rewrite Hloc. cbn. subst loop.
  match goal with
  | |- context [scanLoop w START_BLOCK H [] ?M] =>
      destruct (scanLoop_run w START_BLOCK H [] M) as [p Hp]; rewrite Hp
  end.
  cbn. rewrite <- !app_assoc. cbn.
  destruct (snd (scanRanges w (chunkRanges START_BLOCK H) [])); reflexivity.
Qed.

(** C7: when some range fails, its query throwing or returning more logs
    than one call to [push] takes, the handler ends with [result] null,
    whatever was there before and whatever the earlier chunks returned, and
    with the error set from the message of a range that failed. *)
Theorem failed_chunk_discards_the_scan (w : World) (address entityID : string)
  (H : Z) (m : Machine Result.t) :
  matchesAddress address = true ->
  getBlockNumber w = Returns H ->
  entityByAddress w address = Returns entityID ->
  Exists (fun c => exists e, failsWith w c e) (chunkRanges START_BLOCK H) ->
  exists c cause final,
    In c (chunkRanges START_BLOCK H) /\
    failsWith w c cause /\
    checkAllocations w address m = (Normal tt, final) /\
    result (ui final) = None /\
    error (ui final) = ChainReadError cause /\
    loading (ui final) = false.
Proof.
  intros Hlit Hhead Hloc Hex.
  destruct (scanRanges_some_fails w _ [] Hex) as (c & cause & Hin & Hc & Hs).
  exists c, cause. eexists. split; [exact Hin|]. split; [exact Hc|].
  split; [apply (scan_checkAllocations_run w address entityID H m Hlit Hhead Hloc)|].
  cbn [ui]. rewrite Hs. repeat split.
Qed.

(** *** Block order of the accumulated logs *)

Lemma ascendingFrom_weaken (lo lo' : Z) (logs : list Log.t) :
  lo' <= lo -> ascendingFrom lo logs = true -> ascendingFrom lo' logs = true.
Proof.
  destruct logs as [|l rest]; [reflexivity|]. cbn. intros Hle H.
  apply andb_true_iff in H as [H1 H2]. apply andb_true_iff. split; [|exact H2].
  apply Z.leb_le. apply Z.leb_le in H1. lia.
Qed.

Lemma ascendingFrom_app (t : Z) (l2 : list Log.t) : forall (l1 : list Log.t) (lo : Z),
  ascendingFrom lo l1 = true ->
  forallb (fun l => Log.blockNumber l <=? t) l1 = true ->
  lo <= t + 1 ->
  ascendingFrom (t + 1) l2 = true ->
  ascendingFrom lo (l1 ++ l2) = true.
Proof.
  induction l1 as [|x l1 IH]; intros lo Hasc Hle Hlo H2; cbn in *.
  - apply (ascendingFrom_weaken (t + 1)); assumption.
  - apply andb_true_iff in Hasc as [Hx Hasc]. apply andb_true_iff in Hle as [Hxt Hle].
    apply andb_true_iff. split; [exact Hx|].
    apply IH; try assumption. apply Z.leb_le in Hxt. lia.
Qed.

Lemma ascendingFrom_filter (keep : Log.t -> bool) : forall (logs : list Log.t) (lo : Z),
  ascendingFrom lo logs = true -> ascendingFrom lo (filter keep logs) = true.
Proof.
  induction logs as [|x logs IH]; intros lo H; [reflexivity|]. cbn in *.
  apply andb_true_iff in H as [Hx H]. destruct (keep x); cbn.
  - rewrite Hx. apply IH. exact H.
  - apply (ascendingFrom_weaken (Log.blockNumber x)).
    + apply Z.leb_le. exact Hx.
    + apply IH. exact H.
Qed.

Lemma ascendingFrom_last (latest : Log.t) : forall (earlier : list Log.t) (lo : Z),
  ascendingFrom lo (earlier ++ [latest]) = true ->
  forall e, In e (earlier ++ [latest]) -> Log.blockNumber e <= Log.blockNumber latest.
Proof.
  induction earlier as [|x earlier IH]; intros lo H e Hin; cbn in *.
  - destruct Hin as [<-|[]]. lia.
  - apply andb_true_iff in H as [_ H]. destruct Hin as [<-|Hin].
    + destruct earlier as [|y earlier]; cbn in H.
      * apply andb_true_iff in H as [H _]. apply Z.leb_le. exact H.
      * pose proof H as H'. apply andb_true_iff in H' as [Hxy _].
        apply Z.leb_le in Hxy.
        specialize (IH _ H y (or_introl eq_refl)). lia.
    + apply (IH _ H e Hin).
Qed.

Lemma scanned_ascending (w : World) : forall (ranges : list (Z * Z)) (lo hi : Z),
  consecutive lo ranges hi ->
  Forall (answersInOrder w) ranges ->
  ascendingFrom lo (flat_map (chunkLogs w) ranges) = true.
Proof.
  induction ranges as [|[f t] ranges IH]; intros lo hi Hcons Hall; [reflexivity|].
  cbn [consecutive] in Hcons. destruct Hcons as (-> & Hft & Hcons).
  inversion Hall as [|? ? (logs & Hlogs & Hin) Hrest]; subst.
  cbn [flat_map]. unfold chunkLogs at 1. cbn [fst snd] in *. rewrite Hlogs.
  unfold withinChunk in Hin. cbn [fst snd] in Hin.
  apply andb_true_iff in Hin as [Hasc Hle].
  apply (ascendingFrom_app t); try assumption; [lia|].
  apply (IH _ hi); assumption.
Qed.

Lemma nth_last_app (earlier : list Log.t) (latest d : Log.t) :
  nth (List.length (earlier ++ [latest]) - 1) (earlier ++ [latest]) d = latest.
Proof.
  rewrite length_app. cbn [List.length].
  replace (List.length earlier + 1 - 1)%nat with (List.length earlier) by lia.
  rewrite app_nth2 by lia. rewrite Nat.sub_diag. reflexivity.
Qed.

(** *** The latest matching event *)

(** C6: when every chunk query returns, with no more logs than one call
    to [push] takes, the handler ends without error; the events kept are those whose [entityID] equals the target up to letter
    case; with none kept the result is a plain not-found; otherwise the
    result is found and reports the last kept event with that event's amount
    (scaled by 1e6). The logs are accumulated in chunk order, the queries
    being awaited one after the other; so when each query answers with the
    logs of its range in block order, the event reported has the highest
    block number among the kept ones. *)
Theorem latest_matching_event_is_reported (w : World) (address entityID : string)
  (H : Z) (m : Machine Result.t) :
  matchesAddress address = true ->
  getBlockNumber w = Returns H ->
  entityByAddress w address = Returns entityID ->
  Forall (accumulates w) (chunkRanges START_BLOCK H) ->
  let allLogs := flat_map (chunkLogs w) (chunkRanges START_BLOCK H) in
  let matching := filter (sameEntity entityID) allLogs in
  exists final r,
    checkAllocations w address m = (Normal tt, final) /\
    error (ui final) = EmptyString /\
    result (ui final) = Some r /\
    Result.entityID r = entityID /\
    (forall e, In e matching <->
               In e allLogs /\
               toLowerCase (Log.entityID e) = toLowerCase entityID) /\
    (matching = [] -> Result.found r = false /\ Result.amount r = None) /\
    (forall earlier latest,
       matching = (earlier ++ [latest])%list ->
       Result.found r = true /\
       Result.amount r =
         Some (div (Number (Z.of_N (Log.acceptedAmountUSDT latest))) million) /\
       Result.blockNumber r = Some (decimal (Log.blockNumber latest)) /\
       Result.transactionHash r = Some (Log.transactionHash latest) /\
       (Forall (answersInOrder w) (chunkRanges START_BLOCK H) ->
        forall e, In e matching -> Log.blockNumber e <= Log.blockNumber latest)).
Proof.
  intros Hlit Hhead Hloc Hret allLogs matching.
  assert (Hasc : Forall (answersInOrder w) (chunkRanges START_BLOCK H) ->
                 ascendingFrom START_BLOCK matching = true).
  { intros Hall. apply ascendingFrom_filter.
    destruct (Z_le_dec START_BLOCK H) as [Hle|Hgt].
    - apply (scanned_ascending w _ START_BLOCK H);
        [apply chunkRanges_consecutive; exact Hle|exact Hall].
    - unfold allLogs. rewrite chunkRanges_done by lia. reflexivity. }
  rewrite (scan_checkAllocations_run w address entityID H m Hlit Hhead Hloc).
  rewrite (scanRanges_all_return w _ [] Hret). cbn [snd fst app].
  fold allLogs. do 2 eexists. split; [reflexivity|]. cbn [ui error result].
  split; [reflexivity|]. split; [reflexivity|].
  unfold reconstruct. fold matching.
  split; [destruct matching; reflexivity|]. split.
  { intros e. unfold matching. rewrite filter_In. unfold sameEntity.
    rewrite String.eqb_eq. reflexivity. }
  split.
  - intros ->. split; reflexivity.
  - intros earlier latest E.
    assert (Hmax : Forall (answersInOrder w) (chunkRanges START_BLOCK H) ->
                   forall e, In e matching ->
                     Log.blockNumber e <= Log.blockNumber latest).
    { intros Hall. rewrite E. apply (ascendingFrom_last latest earlier START_BLOCK).
      rewrite <- E. exact (Hasc Hall). }
    clear Hasc. clearbody matching. subst matching.
    destruct (earlier ++ [latest])%list as [|first rest] eqn:El.
    + destruct earlier; discriminate El.
    + rewrite <- El in *. rewrite nth_last_app. cbn.
      repeat split. exact Hmax.
Qed.

(** *** Sample runs *)

Definition entityA1 : string := "0x000000000000000000000000000000A1".

Definition sampleLogs (fromBlock toBlock : Z) : list Log.t :=
  [Log.mk "0x000000000000000000000000000000a1" 1000000 fromBlock "0xaa";
   Log.mk "0x000000000000000000000000000000b2" 7 fromBlock "0xbb";
   Log.mk "0x000000000000000000000000000000a1" 2500000 toBlock "0xcc"].

(** A chain whose head is 120,000 blocks past the start block, with an
    allocation set and amended in every chunk, read by an engine that takes
    65,536 arguments in a call. *)
Definition amendedWorld : World :=
  mkWorld (Returns (START_BLOCK + 119999)) (fun _ => Returns entityA1)
          (fun f t => Returns (sampleLogs f t))
          65536 "Maximum call stack size exceeded".

(** The same chain behind a node that refuses the second chunk. *)
Definition faultyWorld : World :=
  mkWorld (Returns (START_BLOCK + 119999)) (fun _ => Returns entityA1)
          (fun f t => if f =? START_BLOCK + CHUNK_SIZE then Throws "rate limited"
                      else Returns (sampleLogs f t))
          65536 "Maximum call stack size exceeded".

(** The same chain read by an engine that takes two arguments in a call:
    every chunk holds three logs. *)
Definition floodedWorld : World :=
  mkWorld (Returns (START_BLOCK + 119999)) (fun _ => Returns entityA1)
          (fun f t => Returns (sampleLogs f t))
          2 "Maximum call stack size exceeded".

Definition scanIdle : Machine Result.t :=
  mkMachine (mkUI false None EmptyString EmptyString) [].

(** The component as an earlier, successful run left it. *)
Definition scanStale : Machine Result.t :=
  mkMachine
    (mkUI false
          (Some (Result.mk true None (Some (div (Number 1000000) million))
                           (Some "0xaa") (Some "21280000") (Some 1%nat) entityA1))
          EmptyString EmptyString)
    [].

(** The scan from the start block to a head 120,000 blocks later. *)
Lemma scan_chunks_tile_the_range_witness :
  chunkRanges START_BLOCK (START_BLOCK + 119999) =
  [(21280000, 21329999); (21330000, 21379999); (21380000, 21399999)] /\
  map width (chunkRanges START_BLOCK (START_BLOCK + 119999)) = [50000; 50000; 20000].
Proof.
  destruct (scan_chunks_tile_the_range amendedWorld START_BLOCK
              (START_BLOCK + 119999) [] scanIdle) as (_ & _ & H120 & _).
  - unfold START_BLOCK. lia.
  - apply H120. reflexivity.
Defined.

(** Six matching events over three chunks: the one at the head block is
    reported, and no matching event lies above it. *)
Lemma latest_matching_event_is_reported_witness :
  exists final r,
    checkAllocations amendedWorld upperLiteral scanIdle = (Normal tt, final) /\
    result (ui final) = Some r /\
    Result.found r = true /\
    Result.amount r = Some (div (Number 2500000) million) /\
    Result.blockNumber r = Some "21399999" /\
    forall e,
      In e (filter (sameEntity entityA1)
              (flat_map (chunkLogs amendedWorld)
                        (chunkRanges START_BLOCK (START_BLOCK + 119999)))) ->
      Log.blockNumber e <= 21399999.
Proof.
  destruct (latest_matching_event_is_reported amendedWorld upperLiteral entityA1
              (START_BLOCK + 119999) scanIdle eq_refl eq_refl eq_refl)
    as (final & r & Hrun & _ & Hres & _ & _ & _ & Hlatest).
  - rewrite chunkRanges_120000 by reflexivity.
    repeat constructor; eexists; (split; [reflexivity|cbn; lia]).
  - exists final, r. split; [exact Hrun|]. split; [exact Hres|].
    rewrite chunkRanges_120000 in Hlatest |- * by reflexivity.
    destruct (Hlatest
                [Log.mk "0x000000000000000000000000000000a1" 1000000 21280000 "0xaa";
                 Log.mk "0x000000000000000000000000000000a1" 2500000 21329999 "0xcc";
                 Log.mk "0x000000000000000000000000000000a1" 1000000 21330000 "0xaa";
                 Log.mk "0x000000000000000000000000000000a1" 2500000 21379999 "0xcc";
                 Log.mk "0x000000000000000000000000000000a1" 1000000 21380000 "0xaa"]
                (Log.mk "0x000000000000000000000000000000a1" 2500000 21399999 "0xcc")
                eq_refl)
      as (Hfound & Hamount & Hblock & _ & Hmax).
    split; [exact Hfound|]. split; [exact Hamount|]. split; [exact Hblock|].
    apply Hmax. repeat constructor; eexists; split; reflexivity.
Defined.

(** A refused second chunk wipes the result of the earlier run. *)
Lemma failed_chunk_discards_the_scan_witness :
  exists c cause final,
    In c (chunkRanges START_BLOCK (START_BLOCK + 119999)) /\
    failsWith faultyWorld c cause /\
    checkAllocations faultyWorld upperLiteral scanStale = (Normal tt, final) /\
    result (ui final) = None /\
    error (ui final) = ChainReadError cause /\
    loading (ui final) = false.
Proof.
  apply (failed_chunk_discards_the_scan faultyWorld upperLiteral entityA1
           (START_BLOCK + 119999) scanStale eq_refl eq_refl eq_refl).
  rewrite chunkRanges_120000 by reflexivity.
  apply Exists_cons_tl, Exists_cons_hd. exists "rate limited". left. reflexivity.
Defined.

(** The two ways out of the loop, run: the refused chunk gives the node's
    message after two queries; three logs pushed in one call to an engine
    that takes two give the engine's message after one query, though every
    query returns. *)
Example failed_scans_run :
  let refused := snd (checkAllocations faultyWorld upperLiteral scanStale) in
  let flooded := snd (checkAllocations floodedWorld upperLiteral scanStale) in
  ui refused = mkUI false None "Error: rate limited" EmptyString /\
  calls refused =
    [GetBlockNumber; ReadEntityByAddress upperLiteral;
     GetLogs 21280000 21329999; GetLogs 21330000 21379999] /\
  ui flooded = mkUI false None "Error: Maximum call stack size exceeded" EmptyString /\
  calls flooded =
    [GetBlockNumber; ReadEntityByAddress upperLiteral; GetLogs 21280000 21329999].
Proof.
  cbv zeta.
  rewrite (scan_checkAllocations_run faultyWorld upperLiteral entityA1
             (START_BLOCK + 119999) scanStale eq_refl eq_refl eq_refl).
  rewrite (scan_checkAllocations_run floodedWorld upperLiteral entityA1
             (START_BLOCK + 119999) scanStale eq_refl eq_refl eq_refl).
  rewrite chunkRanges_120000 by reflexivity. repeat split.
Qed.

End EventScanProperties.

(** * Further properties *)

(** ** The relay, beyond its status codes *)

Section RelayCoverage.
Import JS Relay.

(** The relay reads the upstream at one URL only, the one built from the
    first [entityId] value: two upstreams that agree there get the same
    answer, and with [entityId] missing or empty the answer does not depend
    on the upstream at all. *)
Theorem relay_reads_one_upstream_url (Json : Type)
  (fetch1 fetch2 : string -> outcome (Upstream Json))
  (searchParams : list (string * string)) :
  (forall entityId,
     searchParams_get searchParams "entityId" = Some entityId ->
     truthyString entityId = true ->
     fetch1 (apiUrl entityId) = fetch2 (apiUrl entityId)) ->
  handler fetch1 searchParams = handler fetch2 searchParams.
Proof.
  intros Hsame. unfold handler.
  destruct (searchParams_get searchParams "entityId") as [entityId|]; [|reflexivity].
  destruct (truthyString entityId) eqn:Hid; [|reflexivity].
  cbn [negb]. rewrite (Hsame entityId eq_refl Hid). reflexivity.
Qed.

(** Two upstreams that differ everywhere but at the allocation URL of
    entity [0x01]. *)
Definition upstreamA (url : string) : outcome (Upstream string) :=
  if String.eqb url (apiUrl "0x01") then Returns (mkUpstream 200 (Returns "{}"))
  else Throws "down".

Definition upstreamB (url : string) : outcome (Upstream string) :=
  if String.eqb url (apiUrl "0x01") then Returns (mkUpstream 200 (Returns "{}"))
  else Returns (mkUpstream 503 (Throws "not JSON")).

Lemma relay_reads_one_upstream_url_witness :
  handler upstreamA entityQuery = handler upstreamB entityQuery.
Proof.
  apply (relay_reads_one_upstream_url string upstreamA upstreamB entityQuery).
  intros entityId [= <-] _. reflexivity.
Defined.

(** Every answer of the relay has status 200, 400 or 500 and a JSON content
    type; the cross-origin header is sent with the 200 answers only, and the
    upstream's data is the body of exactly those. *)
Theorem relay_answer_shape (Json : Type) (fetch : string -> outcome (Upstream Json))
  (searchParams : list (string * string)) :
  let response := handler fetch searchParams in
  (status response = 200 \/ status response = 400 \/ status response = 500) /\
  In ("Content-Type", "application/json") (headers response) /\
  (In ("Access-Control-Allow-Origin", "*") (headers response) <->
   status response = 200) /\
  (status response = 200 <-> exists data, body response = DataBody data).
Proof.
  cbv zeta. unfold handler.
  assert (Hno : forall e : string,
            ~ In ("Access-Control-Allow-Origin", "*")
                 [("Content-Type", "application/json")]).
  { intros _ [H|[]]. discriminate H. }
  destruct (searchParams_get searchParams "entityId") as [entityId|];
    [destruct (truthyString entityId); cbn [negb];
     [destruct (fetch (apiUrl entityId)) as [upstream|e];
      [destruct (upstream_json upstream) as [data|e]|]|]|];
    cbn [status headers body];
    (split; [auto|]); (split; [cbn; auto|]);
    (split; [split; intros H; first [reflexivity | discriminate H
                                      | exact (False_ind _ (Hno EmptyString H))
                                      | cbn; auto]|]);
    (split; [intros H; first [discriminate H | eauto]
            |intros [data' H]; first [reflexivity | discriminate H]]).
Qed.

End RelayCoverage.

(** ** Numbers: a positive amount is never reported as zero *)

Section NumberCoverage.
Import JS.

(** Rounding a positive mantissa above the least exponent does not lower
    the exponent. *)
Lemma binary_round_aux_exponent (m : positive) (e : Z) (l : location) :
  emin prec emax <= e ->
  match binary_round_aux prec emax false (Zpos m) e l with
  | S754_finite false _ e' => e <= e'
  | S754_infinity false => True
  | _ => False
  end.
Proof.
  intros He. unfold binary_round_aux.
  destruct (shr_fexp_pos m e l He) as [H1 H2].
  destruct (shr_fexp prec emax (Zpos m) e l) as [r1 e1]; simpl in H1, H2.
  pose proof (round_nearest_even_pos (shr_m r1) (loc_of_shr_record r1) H1) as H3.
  destruct (round_nearest_even (shr_m r1) (loc_of_shr_record r1)) as [|m2|m2];
    try lia.
  assert (He1 : emin prec emax <= e1) by lia.
  destruct (shr_fexp_pos m2 e1 loc_Exact He1) as [H4 H5].
  destruct (shr_fexp prec emax (Zpos m2) e1 loc_Exact) as [r2 e2];
    simpl in H4, H5.
  destruct (shr_m r2) as [|m3|m3]; try lia.
  destruct (e2 <=? emax - prec); [lia | exact I].
Qed.

(** The double of a positive BigInt has an exponent of at least -52. *)
Lemma Number_exponent (p : positive) :
  match Number (Zpos p) with
  | S754_finite false _ e => -52 <= e
  | S754_infinity false => True
  | _ => False
  end.
Proof.
  unfold Number, binary_normalize, binary_round, shl_align.
  rewrite digits2_pos_size.
  set (f := fexp prec emax (Zpos (Pos.size p) + 0)).
  assert (Hf : -52 <= f) by (unfold f, fexp, prec; lia).
  destruct (f - 0) eqn:Hd.
  - pose proof (binary_round_aux_exponent p 0 loc_Exact) as H.
    destruct (binary_round_aux prec emax false (Z.pos p) 0 loc_Exact) as [s|s| |s m e];
      try destruct s; try (apply H; unfold emin, prec, emax; lia).
    assert (0 <= e) by (apply H; unfold emin, prec, emax; lia). lia.
  - pose proof (binary_round_aux_exponent p 0 loc_Exact) as H.
    destruct (binary_round_aux prec emax false (Z.pos p) 0 loc_Exact) as [s|s| |s m e];
      try destruct s; try (apply H; unfold emin, prec, emax; lia).
    assert (0 <= e) by (apply H; unfold emin, prec, emax; lia). lia.
  - match goal with
    | |- context [binary_round_aux prec emax false (Z.pos ?q) f loc_Exact] =>
        pose proof (binary_round_aux_exponent q f loc_Exact) as H;
        destruct (binary_round_aux prec emax false (Z.pos q) f loc_Exact)
          as [s|s| |s m e]
    end;
      try destruct s; try (apply H; unfold emin, prec, emax; lia).
    assert (f <= e) by (apply H; unfold emin, prec, emax; lia). lia.
Qed.

(** Dividing a finite positive double of exponent at least -52 by [1e6]
    gives a positive double: the quotient does not underflow. *)
Lemma div_million_positive (m : positive) (e : Z) :
  -52 <= e -> positiveNumber (div (S754_finite false m e) million).
Proof.
  intros He.
  change million with (S754_finite false 8589934592000000 (-33)).
  unfold div, SFdiv, SFdiv_core_binary. simpl Zdigits2. rewrite digits2_pos_size.
  change (Z.pos (digits2_pos 8589934592000000)) with 53.
  pose proof (pow2_size_le m) as Hm.
  set (d := Zpos (Pos.size m)) in *.
  assert (Hd : 1 <= d) by (unfold d; lia).
  set (e' := Z.min (fexp prec emax (d + e - (53 + -33))) (e - -33)).
  assert (He' : emin prec emax <= e' /\ e' <= e + 33 /\
                (e' = e + 33 -> 106 <= d) /\ (e' < e + 33 -> e' = d + e - 73)).
  { unfold e', fexp, prec, emin, emax. lia. }
  destruct He' as (Hmin & Hup & Hfull & Hpart).
  set (s := e - -33 - e').
  assert (Hbig : 2 ^ 105 <=
                 match s with
                 | Z0 => Z.pos m
                 | Zpos _ => Z.shiftl (Z.pos m) s
                 | Zneg _ => 0
                 end).
  { destruct s as [|q|q] eqn:Hs.
    - assert (106 <= d) by (apply Hfull; unfold s in Hs; lia).
      eapply Z.le_trans; [|exact Hm]. apply Z.pow_le_mono_r; lia.
    - rewrite Z.shiftl_mul_pow2 by lia.
      assert (Hq : Z.pos q = 106 - d) by (unfold s in Hs; lia).
      rewrite Hq.
      replace 105 with ((d - 1) + (106 - d)) by lia.
      rewrite Z.pow_add_r by lia.
      apply Z.mul_le_mono_nonneg_r; [apply Z.pow_nonneg; lia|exact Hm].
    - unfold s in Hs. lia. }
  set (m' := match s with
             | Z0 => Z.pos m
             | Zpos _ => Z.shiftl (Z.pos m) s
             | Zneg _ => 0
             end) in *.
  pose proof (Z.div_eucl_eq m' 8589934592000000 ltac:(lia)) as Heq.
  pose proof (Z.mod_pos_bound m' 8589934592000000 ltac:(lia)) as Hmod.
  unfold Z.modulo in Hmod.
  destruct (Z.div_eucl m' 8589934592000000) as [q r].
  assert (Hq : 0 < q).
  { assert (8589934592000000 < 2 ^ 105) by (vm_compute; reflexivity). nia. }
  destruct q as [|q|q]; try lia.
  cbn [xorb]. apply binary_round_aux_positive. exact Hmin.
Qed.

(** The reported amount [Number(n) / 1e6] is greater than zero exactly when
    the BigInt [n] is, and is [=== 0] exactly when [n] is [0n]. *)
Lemma scaled_amount_positive_iff (n : N) :
  gt (div (Number (Z.of_N n)) million) zero = (0 <? n)%N /\
  strictEq (div (Number (Z.of_N n)) million) zero = (n =? 0)%N.
Proof.
  destruct n as [|p]; [split; reflexivity|]. simpl Z.of_N.
  pose proof (Number_exponent p) as He.
  assert (Hpos : positiveNumber (div (Number (Zpos p)) million)).
  { destruct (Number (Zpos p)) as [s|s| |s m e]; try destruct s; try contradiction.
    - right. reflexivity.
    - apply div_million_positive. exact He. }
  destruct Hpos as [(m & e & H)|H]; rewrite H; split; reflexivity.
Qed.

End NumberCoverage.

(** ** The direct-read revision, on every path *)

Section DirectReadCoverage.
Import JS Effects DirectRead.

(** How identity resolution ends. *)
Inductive Resolution : Type :=
| Resolved (resolvedAddress : string)
| Rejected (message : string).

Definition resolutionOf (w : World) (address : string) : Resolution :=
  if isEnsName address then
    match getEnsAddress w address with
    | Returns (Some a) => if truthyString a then Resolved a else Rejected NameNotFound
    | Returns None => Rejected NameNotFound
    | Throws e => Rejected (NameResolutionTransportError e)
    end
  else if matchesAddress address then Resolved address
  else Rejected InvalidAddressFormat.

(** The state variables a run on a non-empty input ends with, and the calls
    it issues, as a function of the remote services. *)
Definition settledRun (w : World) (address : string)
  : completion unit * UI Result.t * list NetCall :=
  match resolutionOf w address with
  | Rejected message =>
      (Return_, mkUI false None message EmptyString, nameCalls address)
  | Resolved a =>
      match entityByAddress w a with
      | Throws e =>
          (Normal tt, mkUI false None (ChainReadError e) EmptyString,
           (nameCalls address ++ [ReadEntityByAddress a])%list)
      | Returns entityID =>
          match entityStateByID w entityID with
          | Throws e =>
              (Normal tt, mkUI false None (ChainReadError e) EmptyString,
               (nameCalls address ++
                [ReadEntityByAddress a; ReadEntityStateByID entityID])%list)
          | Returns entityState =>
              (Normal tt,
               mkUI false
                    (Some (reconcile entityID entityState
                                     (fst (offChainAnswer w entityID))
                                     (snd (offChainAnswer w entityID))))
                    EmptyString EmptyString,
               (nameCalls address ++
                [ReadEntityByAddress a; ReadEntityStateByID entityID;
                 Fetch (apiUrl w entityID)])%list)
          end
      end
  end.

Lemma resolveIdentity_settles (w : World) (address : string) (m : Machine Result.t) :
  exists p,
    resolveIdentity w address m =
    match resolutionOf w address with
    | Resolved a =>
        (Normal a,
         mkMachine (mkUI (loading (ui m)) (result (ui m)) (error (ui m)) p)
                   (calls m ++ nameCalls address))
    | Rejected message =>
        (Return_,
         mkMachine (mkUI false (result (ui m)) message EmptyString)
                   (calls m ++ nameCalls address))
    end.
Proof.
  unfold resolveIdentity, resolutionOf, nameCalls.
  destruct (isEnsName address).
  - unfold bind, tryCatch, setProgress, await, reject, setError, setLoading,
      return_, ret. cbn.
    destruct (getEnsAddress w address) as [[a|]|e]; cbn;
      [destruct (truthyString a); cbn| |];
      first [exists EmptyString; reflexivity | eexists; reflexivity].
  - destruct (matchesAddress address); cbn.
    + exists (progress (ui m)). rewrite app_nil_r. destruct m as [[] ?]. reflexivity.
    + exists EmptyString. rewrite app_nil_r. reflexivity.
Qed.

(** Every run on a non-empty input, whatever the services do. *)
Lemma checkAllocations_settles (w : World) (address : string) (m : Machine Result.t) :
  truthyString address = true ->
  checkAllocations w address m =
  (fst (fst (settledRun w address)),
   mkMachine (snd (fst (settledRun w address)))
             (calls m ++ snd (settledRun w address))).
Proof.
  intros Ha. unfold checkAllocations. rewrite Ha. cbn [negb].
  remember (fetchConfirmed w) as F eqn:HF.
  unfold tryFinally, tryCatch, bind at 1 2 3 4 5. cbn.
  destruct (resolveIdentity_settles w address
              (mkMachine (mkUI true None EmptyString EmptyString) (calls m)))
    as [p Hr].
  rewrite Hr. unfold settledRun.
  destruct (resolutionOf w address) as [a|message]; cbn; [|reflexivity].
  unfold bind, locateEntity, readEntityState, setProgress, await, setResult,
    setError. cbn.
  destruct (entityByAddress w a) as [entityID|e]; cbn;
    [|rewrite <- !app_assoc; reflexivity].
  destruct (entityStateByID w entityID) as [entityState|e]; cbn;
    [|rewrite <- !app_assoc; reflexivity].
  subst F.
  match goal with
  | |- context [fetchConfirmed w entityID ?M] =>
      destruct (fetchConfirmed_run w entityID M) as [q Hf]; rewrite Hf
  end.
  cbn. rewrite <- !app_assoc. reflexivity.
Qed.

Lemma taxonomy_messages_not_empty (w : World) (address : string) :
  match resolutionOf w address with
  | Rejected message => message <> EmptyString
  | Resolved _ => True
  end.
Proof.
  unfold resolutionOf.
  destruct (isEnsName address);
    [destruct (getEnsAddress w address) as [[a|]|e]; [destruct (truthyString a)| |]
    |destruct (matchesAddress address)]; try exact I; discriminate.
Qed.

(** A run never throws; on a non-empty input it ends with [loading] false,
    [progress] cleared, and exactly one of a result and an error message. *)
Theorem checkAllocations_ends_settled (w : World) (address : string)
  (m : Machine Result.t) :
  let run := checkAllocations w address m in
  (forall e, fst run <> Throw e) /\
  (truthyString address = true ->
   loading (ui (snd run)) = false /\
   progress (ui (snd run)) = EmptyString /\
   (result (ui (snd run)) = None <-> error (ui (snd run)) <> EmptyString)).
Proof.
  cbv zeta. destruct (truthyString address) eqn:Ha.
  - rewrite (checkAllocations_settles w address m Ha). cbn [fst snd ui].
    unfold settledRun. pose proof (taxonomy_messages_not_empty w address) as Hmsg.
    destruct (resolutionOf w address) as [a|message].
    + destruct (entityByAddress w a) as [entityID|e];
        [destruct (entityStateByID w entityID) as [entityState|e]|];
        cbn; (split; [discriminate|]); intros _;
        repeat split; intros; try discriminate; congruence.
    + cbn. split; [discriminate|]. intros _. repeat split; intros; congruence.
  - unfold checkAllocations. rewrite Ha. cbn. split; [discriminate|discriminate].
Qed.

(** A run on a non-empty input keeps nothing of the run before it: the
    state variables it ends with, and the calls it adds to the trace, are the
    same from any starting state. *)
Theorem checkAllocations_forgets_the_previous_run (w : World) (address : string)
  (m1 m2 : Machine Result.t) :
  truthyString address = true ->
  fst (checkAllocations w address m1) = fst (checkAllocations w address m2) /\
  ui (snd (checkAllocations w address m1)) = ui (snd (checkAllocations w address m2)) /\
  exists issued,
    calls (snd (checkAllocations w address m1)) = (calls m1 ++ issued)%list /\
    calls (snd (checkAllocations w address m2)) = (calls m2 ++ issued)%list.
Proof.
  intros Ha. rewrite !(checkAllocations_settles w address _ Ha). cbn [fst snd ui calls].
  repeat split. eexists. split; reflexivity.
Qed.

(** After the name lookup, if any, the calls of a run are a beginning of:
    the locator, the state read with the entity the locator returned, the API
    fetch for that entity; a result is set exactly when all three were
    issued. *)
Theorem checkAllocations_calls_in_order (w : World) (address : string)
  (m : Machine Result.t) :
  truthyString address = true ->
  exists a entityID n,
    calls (snd (checkAllocations w address m)) =
    (calls m ++ nameCalls address ++
     firstn n [ReadEntityByAddress a; ReadEntityStateByID entityID;
               Fetch (apiUrl w entityID)])%list /\
    (n <= 3)%nat /\
    ((1 <= n)%nat -> resolutionOf w address = Resolved a) /\
    ((2 <= n)%nat -> entityByAddress w a = Returns entityID) /\
    (result (ui (snd (checkAllocations w address m))) <> None <-> n = 3%nat).
Proof.
  intros Ha. rewrite (checkAllocations_settles w address m Ha). cbn [fst snd ui calls].
  unfold settledRun.
  destruct (resolutionOf w address) as [a|message].
  - destruct (entityByAddress w a) as [entityID|e] eqn:Hloc.
    + destruct (entityStateByID w entityID) as [entityState|e].
      * exists a, entityID, 3%nat. cbn. repeat split; auto; discriminate.
      * exists a, entityID, 2%nat. cbn.
        repeat split; auto; try lia; intros H; first [discriminate H | congruence].
    + exists a, EmptyString, 1%nat. cbn.
      repeat split; auto; try lia; intros H; first [discriminate H | congruence].
  - exists EmptyString, EmptyString, 0%nat. cbn. rewrite app_nil_r.
    repeat split; auto; try lia; intros H; first [discriminate H | congruence].
Qed.

(** The component as a run that found an allocation left it. *)
Definition afterFoundRun : Machine Result.t :=
  mkMachine
    (mkUI false
          (Some (reconcile "0x000000000000000000000000000000a1" fundedState None None))
          EmptyString EmptyString)
    [ReadEntityByAddress upperLiteral].

(** The same final state from a fresh component and from one that shows an
    earlier result. *)
Lemma checkAllocations_forgets_the_previous_run_witness :
  ui (snd (checkAllocations unregisteredWorld upperLiteral idle)) =
  ui (snd (checkAllocations unregisteredWorld upperLiteral afterFoundRun)).
Proof.
  apply (checkAllocations_forgets_the_previous_run unregisteredWorld upperLiteral
           idle afterFoundRun eq_refl).
Defined.

(** With the contract unreachable, the run stops after the locator call. *)
Lemma checkAllocations_calls_in_order_witness :
  exists a entityID n,
    calls (snd (checkAllocations quietWorld upperLiteral idle)) =
    (calls idle ++ nameCalls upperLiteral ++
     firstn n [ReadEntityByAddress a; ReadEntityStateByID entityID;
               Fetch (apiUrl quietWorld entityID)])%list /\
    (n <= 3)%nat /\
    ((1 <= n)%nat -> resolutionOf quietWorld upperLiteral = Resolved a) /\
    ((2 <= n)%nat -> entityByAddress quietWorld a = Returns entityID) /\
    (result (ui (snd (checkAllocations quietWorld upperLiteral idle))) <> None
     <-> n = 3%nat).
Proof.
  apply (checkAllocations_calls_in_order quietWorld upperLiteral idle eq_refl).
Defined.

(** When the name lookup itself fails, the run is rejected with a message
    that carries the cause; no contract is read and no result is set. *)
Theorem name_lookup_failure_is_reported (w : World) (address cause : string)
  (m : Machine Result.t) :
  truthyString address = true ->
  isEnsName address = true ->
  getEnsAddress w address = Throws cause ->
  checkAllocations w address m =
  (Return_,
   mkMachine (mkUI false None ("Failed to resolve ENS name: " ++ cause) EmptyString)
             (calls m ++ [GetEnsAddress address])).
Proof.
  intros Ha Hname Hens. rewrite (checkAllocations_settles w address m Ha).
  unfold settledRun, resolutionOf, nameCalls. rewrite Hname, Hens. reflexivity.
Qed.

(** A naming service that times out. *)
Definition namelessWorld : World :=
  mkWorld false (fun _ => Throws "request timed out") (fun _ => Throws "unreachable")
          (fun _ => Throws "unreachable") (fun _ => Throws "unreachable").

Lemma name_lookup_failure_is_reported_witness :
  checkAllocations namelessWorld "vitalik.eth" idle =
  (Return_,
   mkMachine (mkUI false None "Failed to resolve ENS name: request timed out"
                   EmptyString)
             [GetEnsAddress "vitalik.eth"]).
Proof.
  apply (name_lookup_failure_is_reported namelessWorld "vitalik.eth"
           "request timed out" idle eq_refl eq_refl eq_refl).
Defined.

(** For an input looked up as a name, the contract is read with the address
    the naming service returned, as returned: whatever is returned and not
    empty is passed on, without the address pattern being applied to it. *)
Theorem bound_address_is_what_the_contract_reads (w : World)
  (address bound : string) (m : Machine Result.t) :
  truthyString address = true ->
  isEnsName address = true ->
  getEnsAddress w address = Returns (Some bound) ->
  truthyString bound = true ->
  exists later,
    calls (snd (checkAllocations w address m)) =
    (calls m ++ GetEnsAddress address :: ReadEntityByAddress bound :: later)%list /\
    forall c, In c later -> c <> ReadEntityByAddress address.
Proof.
  intros Ha Hname Hens Hbound. rewrite (checkAllocations_settles w address m Ha).
  unfold settledRun, resolutionOf, nameCalls. rewrite Hname, Hens, Hbound.
  cbn [snd calls].
  destruct (entityByAddress w bound) as [entityID|e];
    [destruct (entityStateByID w entityID) as [entityState|e]|];
    cbn; eexists; (split; [reflexivity|]); cbn;
    intros c Hin; repeat destruct Hin as [<-|Hin]; try discriminate; destruct Hin.
Qed.

(** A naming service that binds every name to an address of the wrong
    shape. *)
Definition oddNamesWorld : World :=
  mkWorld false (fun _ => Returns (Some "not-an-address"))
          (fun _ => Returns zeroEntityID) (fun _ => Returns emptyState)
          (fun _ => Throws "offline").

Lemma bound_address_is_what_the_contract_reads_witness :
  exists later,
    calls (snd (checkAllocations oddNamesWorld "alice.eth" idle)) =
    GetEnsAddress "alice.eth" :: ReadEntityByAddress "not-an-address" :: later /\
    forall c, In c later -> c <> ReadEntityByAddress "alice.eth".
Proof.
  apply (bound_address_is_what_the_contract_reads oddNamesWorld "alice.eth"
           "not-an-address" idle eq_refl eq_refl eq_refl eq_refl).
Defined.

(** A failed contract read, of the entity or of its state, ends the run:
    the error carries the cause, no result is set, and the API is not
    fetched. *)
Theorem chain_read_failure_is_fatal (w : World) (address a cause : string)
  (m : Machine Result.t) :
  truthyString address = true ->
  resolutionOf w address = Resolved a ->
  (entityByAddress w a = Throws cause \/
   exists entityID,
     entityByAddress w a = Returns entityID /\
     entityStateByID w entityID = Throws cause) ->
  let final := snd (checkAllocations w address m) in
  fst (checkAllocations w address m) = Normal tt /\
  error (ui final) = ("Error: " ++ cause)%string /\
  result (ui final) = None /\
  loading (ui final) = false /\
  forall url, ~ In (Fetch url) (skipn (List.length (calls m)) (calls final)).
Proof.
  intros Ha Hres Hfail. cbv zeta.
  rewrite (checkAllocations_settles w address m Ha). cbn [fst snd ui calls].
  rewrite skipn_app, skipn_all, Nat.sub_diag. cbn [skipn app].
  unfold settledRun, nameCalls. rewrite Hres.
  destruct Hfail as [Hloc|(entityID & Hloc & Hst)]; rewrite Hloc; [|rewrite Hst];
    cbn; repeat split; intros url Hin;
    destruct (isEnsName address); cbn in Hin;
    repeat destruct Hin as [Hin|Hin]; try discriminate Hin; exact Hin.
Qed.

(** A contract that reverts on the state read. *)
Definition revertingWorld : World :=
  mkWorld false (fun _ => Returns None)
          (fun _ => Returns "0x000000000000000000000000000000a1")
          (fun _ => Throws "execution reverted")
          (fun _ => Throws "unreachable").

Lemma chain_read_failure_is_fatal_witness :
  error (ui (snd (checkAllocations revertingWorld upperLiteral afterFoundRun))) =
  "Error: execution reverted" /\
  result (ui (snd (checkAllocations revertingWorld upperLiteral afterFoundRun))) = None.
Proof.
  destruct (chain_read_failure_is_fatal revertingWorld upperLiteral upperLiteral
              "execution reverted" afterFoundRun eq_refl eq_refl)
    as (_ & Herr & Hres & _).
  - right. exists "0x000000000000000000000000000000a1". split; reflexivity.
  - split; [exact Herr|exact Hres].
Defined.

(** *** The off-chain client on its own *)

(** The off-chain client never throws and never returns early; it issues
    the one fetch and changes no state variable but [progress]; it yields an
    error description exactly when the fetch failed, never together with
    data; and without an error the data is the parsed body of a response with
    a success status. *)
Theorem fetchConfirmed_yields_data_or_error (w : World) (entityID : string)
  (m : Machine Result.t) :
  exists apiAllocation apiError final,
    fetchConfirmed w entityID m = (Normal (apiAllocation, apiError), final) /\
    calls final = (calls m ++ [Fetch (apiUrl w entityID)])%list /\
    loading (ui final) = loading (ui m) /\
    result (ui final) = result (ui m) /\
    error (ui final) = error (ui m) /\
    (apiError = None <-> offChainFailed w entityID = false) /\
    (apiError <> None -> apiAllocation = None) /\
    (apiError = None ->
     exists response,
       fetch w (apiUrl w entityID) = Returns response /\
       Response.ok response = true /\
       Response.json response = Returns apiAllocation).
Proof.
  destruct (fetchConfirmed_run w entityID m) as [p Hp]. rewrite Hp.
  exists (fst (offChainAnswer w entityID)), (snd (offChainAnswer w entityID)).
  eexists. split; [rewrite <- surjective_pairing; reflexivity|].
  cbn [calls ui loading result error].
  do 4 (split; [reflexivity|]).
  unfold offChainAnswer, offChainFailed.
  destruct (fetch w (apiUrl w entityID)) as [response|e]; cbn.
  - destruct (Response.ok response) eqn:Hok; cbn.
    + destruct (Response.json response) as [d|e] eqn:Hjson; cbn.
      * repeat split; try congruence. intros _. exists response. auto.
      * repeat split; try congruence; discriminate.
    + destruct (Response.text response); cbn;
        repeat split; try congruence; discriminate.
  - repeat split; try congruence; discriminate.
Qed.

(** An answer of the API that carries no positive allocation is not an
    error: the run sets a result with no [apiError], found exactly when the
    on-chain amount is positive, and the API's answer is kept in the result
    even when nothing is found. *)
Theorem unconfirmed_api_answer_is_kept (w : World)
  (address a entityID : string) (entityState : EntityState.t)
  (response : Response.t) (apiData : option ApiData) (m : Machine Result.t) :
  truthyString address = true ->
  resolutionOf w address = Resolved a ->
  entityByAddress w a = Returns entityID ->
  entityStateByID w entityID = Returns entityState ->
  fetch w (apiUrl w entityID) = Returns response ->
  Response.ok response = true ->
  Response.json response = Returns apiData ->
  hasApiAllocation apiData = false ->
  exists r,
    result (ui (snd (checkAllocations w address m))) = Some r /\
    error (ui (snd (checkAllocations w address m))) = EmptyString /\
    Result.apiError r = None /\
    Result.apiAllocation r = apiData /\
    Result.entityID r = entityID /\
    Result.found r = negb (EntityState.acceptedAmount entityState =? 0)%N.
Proof.
  intros Ha Hres Hloc Hst Hfetch Hok Hjson Hnone.
  rewrite (checkAllocations_settles w address m Ha). cbn [snd ui].
  unfold settledRun, offChainAnswer. rewrite Hres, Hloc, Hst, Hfetch, Hok, Hjson.
  cbn [fst snd result error]. eexists. split; [reflexivity|]. split; [reflexivity|].
  unfold reconcile. rewrite Number_strictEq_zero, Hnone, andb_true_r.
  destruct (EntityState.acceptedAmount entityState =? 0)%N; repeat split.
Qed.

Lemma unconfirmed_api_answer_is_kept_witness :
  exists r,
    result (ui (snd (checkAllocations unregisteredWorld upperLiteral idle))) = Some r /\
    error (ui (snd (checkAllocations unregisteredWorld upperLiteral idle))) = EmptyString /\
    Result.apiError r = None /\
    Result.apiAllocation r = Some (mkApiData None None None) /\
    Result.entityID r = zeroEntityID /\
    Result.found r = false.
Proof.
  apply (unconfirmed_api_answer_is_kept unregisteredWorld upperLiteral upperLiteral
           zeroEntityID emptyState
           (Response.mk 200 (Returns (Some (mkApiData None None None))) (Returns "{}"))
           (Some (mkApiData None None None)) idle);
    reflexivity.
Defined.

(** *** The amount a result reports *)

(** A result reports an amount exactly when it is found; the amount is
    greater than zero exactly when the on-chain [acceptedAmount] is (the
    conversion to a double and the division by [1e6] never turn a positive
    amount into zero), so a found result with amount zero is one the API
    alone vouches for; a result without amount has [acceptedAmount = 0]. *)
Theorem reported_amount_positive_iff_on_chain (entityID : string)
  (entityState : EntityState.t) (apiAllocation : option ApiData)
  (apiError : option string) :
  let r := reconcile entityID entityState apiAllocation apiError in
  match Result.amount r with
  | Some x =>
      Result.found r = true /\
      gt x zero = (0 <? EntityState.acceptedAmount entityState)%N /\
      (gt x zero = false -> hasApiAllocation apiAllocation = true)
  | None =>
      Result.found r = false /\ EntityState.acceptedAmount entityState = 0%N
  end.
Proof.
  cbv zeta. unfold reconcile. rewrite Number_strictEq_zero.
  destruct (N.eqb_spec (EntityState.acceptedAmount entityState) 0) as [E|E];
    destruct (hasApiAllocation apiAllocation); cbn [andb negb Result.amount Result.found].
  - rewrite E. repeat split.
  - split; [reflexivity|exact E].
  - rewrite (proj1 (scaled_amount_positive_iff _)). repeat split.
  - rewrite (proj1 (scaled_amount_positive_iff _)). split; [reflexivity|].
    split; [reflexivity|]. intros H. apply N.ltb_ge in H. lia.
Qed.

End DirectReadCoverage.

(** ** The event-scan revision, on every path *)

Section EventScanCoverage.
Import JS Effects EventScan.

(** The state variables a run on a well-formed address ends with, and the
    calls it issues, as a function of the remote services. *)
Definition settledScan (w : World) (address : string)
  : UI Result.t * list NetCall :=
  match getBlockNumber w with
  | Throws e => (mkUI false None (ChainReadError e) EmptyString, [GetBlockNumber])
  | Returns currentBlock =>
      match entityByAddress w address with
      | Throws e =>
          (mkUI false None (ChainReadError e) EmptyString,
           [GetBlockNumber; ReadEntityByAddress address])
      | Returns entityID =>
          (match snd (scanRanges w (chunkRanges START_BLOCK currentBlock) []) with
           | Returns allLogs =>
               mkUI false (Some (reconstruct entityID allLogs)) EmptyString EmptyString
           | Throws e => mkUI false None (ChainReadError e) EmptyString
           end,
           ([GetBlockNumber; ReadEntityByAddress address] ++
            map query (fst (scanRanges w (chunkRanges START_BLOCK currentBlock) [])))%list)
      end
  end.

Lemma scan_checkAllocations_settles (w : World) (address : string)
  (m : Machine Result.t) :
  matchesAddress address = true ->
  checkAllocations w address m =
  (Normal tt,
   mkMachine (fst (settledScan w address)) (calls m ++ snd (settledScan w address))).
Proof.
  intros Hlit. unfold settledScan.
  destruct (getBlockNumber w) as [currentBlock|e] eqn:Hhead.
  - destruct (entityByAddress w address) as [entityID|e] eqn:Hloc.
    + apply (scan_checkAllocations_run w address entityID currentBlock m Hlit Hhead Hloc).
    + unfold checkAllocations.
      assert (Ha : truthyString address = true)
        by (destruct address; [discriminate Hlit|reflexivity]).
      rewrite Ha, Hlit. cbn [negb].
      unfold tryFinally, tryCatch, bind, setLoading, setError, setResult,
        setProgress, await. cbn. rewrite Hhead. cbn. rewrite Hloc. cbn.
      rewrite <- !app_assoc. reflexivity.
  - unfold checkAllocations.
    assert (Ha : truthyString address = true)
      by (destruct address; [discriminate Hlit|reflexivity]).
    rewrite Ha, Hlit. cbn [negb].
    unfold tryFinally, tryCatch, bind, setLoading, setError, setResult,
      setProgress, await. cbn. rewrite Hhead. cbn. reflexivity.
Qed.

(** An input that is not [0x] and forty hexadecimal digits, a name
    included, is refused before anything else happens: no call is issued,
    and [loading], [progress] and the result of the run before stay as they
    were. *)
Theorem scan_refuses_before_any_call (w : World) (address : string)
  (m : Machine Result.t) :
  matchesAddress address = false ->
  checkAllocations w address m =
  (Return_,
   mkMachine
     (mkUI (loading (ui m)) (result (ui m))
           (if truthyString address then "Invalid Ethereum address format"
            else "Please enter an address")
           (progress (ui m)))
     (calls m)).
Proof.
  intros Hlit. unfold checkAllocations. rewrite Hlit.
  destruct (truthyString address); reflexivity.
Qed.

Lemma scan_refuses_before_any_call_witness :
  checkAllocations amendedWorld "vitalik.eth" scanStale =
  (Return_,
   mkMachine
     (mkUI false (result (ui scanStale)) "Invalid Ethereum address format" EmptyString)
     []).
Proof.
  apply (scan_refuses_before_any_call amendedWorld "vitalik.eth" scanStale eq_refl).
Defined.

(** A run never throws; on a well-formed address it ends with [loading]
    false, [progress] cleared, and exactly one of a result and an error
    message, all of them the same from any starting state. *)
Theorem scan_run_ends_settled (w : World) (address : string)
  (m m' : Machine Result.t) :
  let run := checkAllocations w address m in
  (forall e, fst run <> Throw e) /\
  (matchesAddress address = true ->
   loading (ui (snd run)) = false /\
   progress (ui (snd run)) = EmptyString /\
   (result (ui (snd run)) = None <-> error (ui (snd run)) <> EmptyString) /\
   ui (snd run) = ui (snd (checkAllocations w address m'))).
Proof.
  cbv zeta. destruct (matchesAddress address) eqn:Hlit.
  - rewrite !(scan_checkAllocations_settles w address _ Hlit). cbn [fst snd ui].
    split; [discriminate|]. intros _. unfold settledScan.
    destruct (getBlockNumber w) as [currentBlock|e];
      [destruct (entityByAddress w address) as [entityID|e];
       [destruct (snd (scanRanges w (chunkRanges START_BLOCK currentBlock) []))|]|];
      cbn; repeat split; intros; try discriminate; congruence.
  - rewrite (scan_refuses_before_any_call w address m Hlit). cbn.
    split; [discriminate|discriminate].
Qed.

(** When the head block or the entity cannot be read, the run ends with
    the cause as its error and no result, and no log query is issued. *)
Theorem scan_needs_head_and_entity (w : World) (address cause : string)
  (m : Machine Result.t) :
  matchesAddress address = true ->
  (getBlockNumber w = Throws cause \/
   exists currentBlock,
     getBlockNumber w = Returns currentBlock /\
     entityByAddress w address = Throws cause) ->
  let final := snd (checkAllocations w address m) in
  error (ui final) = ("Error: " ++ cause)%string /\
  result (ui final) = None /\
  forall f t, ~ In (GetLogs f t) (skipn (List.length (calls m)) (calls final)).
Proof.
  intros Hlit Hfail. cbv zeta.
  rewrite (scan_checkAllocations_settles w address m Hlit). cbn [snd ui calls].
  rewrite skipn_app, skipn_all, Nat.sub_diag. cbn [skipn app].
  unfold settledScan.
  destruct Hfail as [Hhead|(currentBlock & Hhead & Hloc)]; rewrite Hhead;
    [|rewrite Hloc]; cbn; repeat split; intros f t Hin;
    repeat destruct Hin as [Hin|Hin]; try discriminate Hin; exact Hin.
Qed.

(** A node that does not answer. *)
Definition deafWorld : World :=
  mkWorld (Throws "fetch failed") (fun _ => Returns entityA1)
          (fun f t => Returns (sampleLogs f t))
          65536 "Maximum call stack size exceeded".

Lemma scan_needs_head_and_entity_witness :
  error (ui (snd (checkAllocations deafWorld upperLiteral scanStale))) =
  "Error: fetch failed" /\
  result (ui (snd (checkAllocations deafWorld upperLiteral scanStale))) = None.
Proof.
  destruct (scan_needs_head_and_entity deafWorld upperLiteral "fetch failed"
              scanStale eq_refl (or_introl eq_refl)) as (Herr & Hres & _).
  split; [exact Herr|exact Hres].
Defined.

(** *** How many queries, over how many blocks *)

(** The loop goes through [(H - S) / 50000 + 1] ranges when [S <= H] and
    through none otherwise, and their widths add up to the number of blocks
    from [S] to [H]. *)
Theorem chunk_count_and_total_width : forall S H,
  Z.of_nat (List.length (chunkRanges S H)) =
    (if S <=? H then (H - S) / 50000 + 1 else 0) /\
  fold_right Z.add 0 (map width (chunkRanges S H)) = Z.max 0 (H - S + 1).
Proof.
  apply (chunk_induction
           (fun S H =>
              Z.of_nat (List.length (chunkRanges S H)) =
                (if S <=? H then (H - S) / 50000 + 1 else 0) /\
              fold_right Z.add 0 (map width (chunkRanges S H)) = Z.max 0 (H - S + 1))).
  intros S H IH. destruct (Z.leb_spec S H) as [Hle|Hgt].
  - destruct (IH Hle) as [IHn IHw]. rewrite (chunkRanges_step S H Hle).
    cbn [List.length map fold_right]. rewrite Nat2Z.inj_succ, IHn, IHw.
    unfold width, chunkEnd, CHUNK_SIZE in *. cbn [fst snd].
    destruct (Z.leb_spec (S + 50000) H) as [Hmore|Hlast];
      destruct (Z.gtb_spec (S + 50000 - 1) H); try lia.
    + split; [|lia].
      replace (H - S) with ((H - (S + 50000)) + 1 * 50000) by lia.
      rewrite Z.div_add by lia. lia.
    + split; [|lia]. rewrite Z.div_small by lia. lia.
    + split; [|lia]. rewrite Z.div_small by lia. lia.
  - rewrite chunkRanges_done by lia. cbn. split; lia.
Qed.

(** The loop keeps what was accumulated before it and, when every query
    returns no more logs than one call to [push] takes, appends the logs of
    each range in the order of the ranges, issuing one query per range and
    nothing else. *)
Theorem scanLoop_accumulates_in_order (w : World) (S H : Z) (allLogs : list Log.t)
  (m : Machine Result.t) :
  Forall (accumulates w) (chunkRanges S H) ->
  fst (scanLoop w S H allLogs m) =
    Normal (allLogs ++ flat_map (chunkLogs w) (chunkRanges S H))%list /\
  calls (snd (scanLoop w S H allLogs m)) =
    (calls m ++ map query (chunkRanges S H))%list /\
  loading (ui (snd (scanLoop w S H allLogs m))) = loading (ui m) /\
  result (ui (snd (scanLoop w S H allLogs m))) = result (ui m) /\
  error (ui (snd (scanLoop w S H allLogs m))) = error (ui m).
Proof.
  intros Hall. destruct (scanLoop_run w S H allLogs m) as [p Hp]. rewrite Hp.
  rewrite (scanRanges_all_return w _ allLogs Hall). cbn.
  repeat split.
Qed.

Lemma scanLoop_accumulates_in_order_witness :
  fst (scanLoop amendedWorld START_BLOCK (START_BLOCK + 119999) [] scanIdle) =
    Normal (flat_map (chunkLogs amendedWorld)
                     (chunkRanges START_BLOCK (START_BLOCK + 119999))) /\
  calls (snd (scanLoop amendedWorld START_BLOCK (START_BLOCK + 119999) [] scanIdle)) =
    map query (chunkRanges START_BLOCK (START_BLOCK + 119999)).
Proof.
  destruct (scanLoop_accumulates_in_order amendedWorld START_BLOCK
              (START_BLOCK + 119999) [] scanIdle) as (Hlogs & Hcalls & _).
  - rewrite chunkRanges_120000 by reflexivity.
    repeat constructor; eexists; (split; [reflexivity|cbn; lia]).
  - split; [exact Hlogs|exact Hcalls].
Defined.

(** *** What counts as found *)

(** When every query returns no more logs than one call to [push] takes,
    the result is found exactly when some scanned event carries the entity,
    up to letter case, whatever its amount: an entity whose latest event sets the amount to zero is still
    found, with amount zero. The result counts the events kept. *)
Theorem scan_found_iff_some_event (w : World) (address entityID : string) (H : Z)
  (m : Machine Result.t) :
  matchesAddress address = true ->
  getBlockNumber w = Returns H ->
  entityByAddress w address = Returns entityID ->
  Forall (accumulates w) (chunkRanges START_BLOCK H) ->
  let allLogs := flat_map (chunkLogs w) (chunkRanges START_BLOCK H) in
  let matching := filter (sameEntity entityID) allLogs in
  exists r,
    result (ui (snd (checkAllocations w address m))) = Some r /\
    (Result.found r = true <->
     exists e, In e allLogs /\
               toLowerCase (Log.entityID e) = toLowerCase entityID) /\
    Result.totalAllocations r =
      (if Result.found r then Some (List.length matching) else None) /\
    (forall earlier latest,
       matching = (earlier ++ [latest])%list ->
       Log.acceptedAmountUSDT latest = 0%N ->
       Result.found r = true /\ Result.amount r = Some zero).
Proof.
  intros Hlit Hhead Hloc Hret allLogs matching.
  rewrite (scan_checkAllocations_run w address entityID H m Hlit Hhead Hloc).
  rewrite (scanRanges_all_return w _ [] Hret). cbn [snd fst app ui result].
  fold allLogs. eexists. split; [reflexivity|].
  unfold reconstruct. fold matching.
  assert (Hin : forall e, In e matching <->
                  In e allLogs /\
                  toLowerCase (Log.entityID e) = toLowerCase entityID).
  { intros e. unfold matching. rewrite filter_In. unfold sameEntity.
    rewrite String.eqb_eq. reflexivity. }
  split; [|split].
  - destruct matching as [|first rest]; cbn; split.
    + discriminate.
    + intros (e & He). apply Hin in He. destruct He.
    + intros _. exists first. apply Hin. left. reflexivity.
    + reflexivity.
  - destruct matching; reflexivity.
  - intros earlier latest E Hzero. clearbody matching. subst matching.
    destruct (earlier ++ [latest])%list as [|first rest] eqn:El.
    + destruct earlier; discriminate El.
    + rewrite <- El. rewrite nth_last_app, Hzero. cbn. split; reflexivity.
Qed.

(** An allocation set and then withdrawn. *)
Definition withdrawnWorld : World :=
  mkWorld (Returns (START_BLOCK + 10)) (fun _ => Returns entityA1)
          (fun f t =>
             Returns [Log.mk "0x000000000000000000000000000000a1" 1000000 f "0xaa";
                      Log.mk "0x000000000000000000000000000000A1" 0 t "0xdd"])
          65536 "Maximum call stack size exceeded".

Lemma scan_found_iff_some_event_witness :
  exists r,
    result (ui (snd (checkAllocations withdrawnWorld upperLiteral scanIdle))) = Some r /\
    Result.found r = true /\
    Result.amount r = Some zero /\
    Result.totalAllocations r = Some 2%nat.
Proof.
  assert (E : chunkRanges START_BLOCK (START_BLOCK + 10) =
              [(START_BLOCK, START_BLOCK + 10)]).
  { rewrite chunkRanges_step by (unfold START_BLOCK; lia).
    rewrite chunkRanges_done by (unfold START_BLOCK, CHUNK_SIZE; lia). reflexivity. }
  destruct (scan_found_iff_some_event withdrawnWorld upperLiteral entityA1
              (START_BLOCK + 10) scanIdle eq_refl eq_refl eq_refl)
    as (r & Hres & _ & Htotal & Hzero).
  - rewrite E. repeat constructor. eexists. split; [reflexivity|cbn; lia].
  - rewrite E in Htotal, Hzero.
    destruct (Hzero [Log.mk "0x000000000000000000000000000000a1" 1000000
                            START_BLOCK "0xaa"]
                    (Log.mk "0x000000000000000000000000000000A1" 0
                            (START_BLOCK + 10) "0xdd") eq_refl eq_refl)
      as (Hfound & Hamount).
    exists r. split; [exact Hres|]. split; [exact Hfound|]. split; [exact Hamount|].
    rewrite Hfound in Htotal. exact Htotal.
Defined.

(** When the head lies below the start block no log query is issued, and
    the result is not found. *)
Theorem scan_before_start_block_finds_nothing (w : World)
  (address entityID : string) (H : Z) (m : Machine Result.t) :
  matchesAddress address = true ->
  getBlockNumber w = Returns H ->
  entityByAddress w address = Returns entityID ->
  H < START_BLOCK ->
  checkAllocations w address m =
  (Normal tt,
   mkMachine
     (mkUI false
           (Some (Result.mk false (Some "No allocation detected") None None None None
                            entityID))
           EmptyString EmptyString)
     (calls m ++ [GetBlockNumber; ReadEntityByAddress address])).
Proof.
  intros Hlit Hhead Hloc Hlow.
  rewrite (scan_checkAllocations_run w address entityID H m Hlit Hhead Hloc).
  rewrite chunkRanges_done by exact Hlow. reflexivity.
Qed.

(** A test chain that has not reached the start block. *)
Definition youngWorld : World :=
  mkWorld (Returns 1000) (fun _ => Returns entityA1)
          (fun f t => Returns (sampleLogs f t))
          65536 "Maximum call stack size exceeded".

Lemma scan_before_start_block_finds_nothing_witness :
  checkAllocations youngWorld upperLiteral scanIdle =
  (Normal tt,
   mkMachine
     (mkUI false
           (Some (Result.mk false (Some "No allocation detected") None None None None
                            entityA1))
           EmptyString EmptyString)
     [GetBlockNumber; ReadEntityByAddress upperLiteral]).
Proof.
  apply (scan_before_start_block_finds_nothing youngWorld upperLiteral entityA1 1000
           scanIdle eq_refl eq_refl eq_refl).
  unfold START_BLOCK. lia.
Defined.

End EventScanCoverage.

(** ** The revision without the API *)

Section StateReadCoverage.
Import JS Effects.

Definition stateReadResolution (w : StateRead.World) (address : string) : Resolution :=
  if StateRead.isEnsName address then
    match StateRead.getEnsAddress w address with
    | Returns (Some a) =>
        if truthyString a then Resolved a else Rejected StateRead.NameNotFound
    | Returns None => Rejected StateRead.NameNotFound
    | Throws e => Rejected (StateRead.NameResolutionTransportError e)
    end
  else if matchesAddress address then Resolved address
  else Rejected StateRead.InvalidAddressFormat.

(** The state variables a run on a non-empty input ends with, and the calls
    it issues. *)
Definition settledStateRead (w : StateRead.World) (address : string)
  : completion unit * UI StateRead.Result.t * list NetCall :=
  let nameCall :=
    if StateRead.isEnsName address then [GetEnsAddress address] else [] in
  match stateReadResolution w address with
  | Rejected message => (Return_, mkUI false None message EmptyString, nameCall)
  | Resolved a =>
      match StateRead.entityByAddress w a with
      | Throws e =>
          (Normal tt, mkUI false None (StateRead.ChainReadError e) EmptyString,
           (nameCall ++ [ReadEntityByAddress a])%list)
      | Returns entityID =>
          match StateRead.entityStateByID w entityID with
          | Throws e =>
              (Normal tt, mkUI false None (StateRead.ChainReadError e) EmptyString,
               (nameCall ++
                [ReadEntityByAddress a; ReadEntityStateByID entityID])%list)
          | Returns entityState =>
              (Normal tt,
               mkUI false (Some (StateRead.classify entityID entityState))
                    EmptyString EmptyString,
               (nameCall ++
                [ReadEntityByAddress a; ReadEntityStateByID entityID])%list)
          end
      end
  end.

Lemma stateRead_resolveIdentity_settles (w : StateRead.World) (address : string)
  (m : Machine StateRead.Result.t) :
  exists p,
    StateRead.resolveIdentity w address m =
    match stateReadResolution w address with
    | Resolved a =>
        (Normal a,
         mkMachine (mkUI (loading (ui m)) (result (ui m)) (error (ui m)) p)
                   (calls m ++ if StateRead.isEnsName address
                               then [GetEnsAddress address] else []))
    | Rejected message =>
        (Return_,
         mkMachine (mkUI false (result (ui m)) message EmptyString)
                   (calls m ++ if StateRead.isEnsName address
                               then [GetEnsAddress address] else []))
    end.
Proof.
  unfold StateRead.resolveIdentity, stateReadResolution.
  destruct (StateRead.isEnsName address).
  - unfold bind, tryCatch, setProgress, await, StateRead.reject, setError,
      setLoading, return_, ret. cbn.
    destruct (StateRead.getEnsAddress w address) as [[a|]|e]; cbn;
      [destruct (truthyString a); cbn| |];
      first [exists EmptyString; reflexivity | eexists; reflexivity].
  - destruct (matchesAddress address); cbn.
    + exists (progress (ui m)). rewrite app_nil_r. destruct m as [[] ?]. reflexivity.
    + exists EmptyString. rewrite app_nil_r. reflexivity.
Qed.

Lemma stateRead_checkAllocations_settles (w : StateRead.World) (address : string)
  (m : Machine StateRead.Result.t) :
  truthyString address = true ->
  StateRead.checkAllocations w address m =
  (fst (fst (settledStateRead w address)),
   mkMachine (snd (fst (settledStateRead w address)))
             (calls m ++ snd (settledStateRead w address))).
Proof.
  intros Ha. unfold StateRead.checkAllocations. rewrite Ha. cbn [negb].
  unfold tryFinally, tryCatch, bind at 1 2 3 4 5. cbn.
  destruct (stateRead_resolveIdentity_settles w address
              (mkMachine (mkUI true None EmptyString EmptyString) (calls m)))
    as [p Hr].
  rewrite Hr. unfold settledStateRead.
  destruct (stateReadResolution w address) as [a|message]; cbn; [|reflexivity].
  unfold bind, setProgress, await, setResult, setError. cbn.
  destruct (StateRead.entityByAddress w a) as [entityID|e]; cbn;
    [|rewrite <- !app_assoc; reflexivity].
  destruct (StateRead.entityStateByID w entityID) as [entityState|e]; cbn;
    rewrite <- !app_assoc; reflexivity.
Qed.

(** A run never throws and never fetches the API; on a non-empty input it
    ends with [loading] false, [progress] cleared and exactly one of a result
    and an error message; a result is found exactly when the on-chain amount
    is positive, and then reports a positive amount. *)
Theorem state_read_run_ends_settled (w : StateRead.World) (address : string)
  (m : Machine StateRead.Result.t) :
  let run := StateRead.checkAllocations w address m in
  (forall e, fst run <> Throw e) /\
  (forall url, In (Fetch url) (calls (snd run)) -> In (Fetch url) (calls m)) /\
  (truthyString address = true ->
   loading (ui (snd run)) = false /\
   progress (ui (snd run)) = EmptyString /\
   (result (ui (snd run)) = None <-> error (ui (snd run)) <> EmptyString) /\
   forall r, result (ui (snd run)) = Some r ->
     exists a entityState,
       stateReadResolution w address = Resolved a /\
       StateRead.entityByAddress w a = Returns (StateRead.Result.entityID r) /\
       StateRead.entityStateByID w (StateRead.Result.entityID r) = Returns entityState /\
       StateRead.Result.found r =
         (0 <? DirectRead.EntityState.acceptedAmount entityState)%N /\
       (StateRead.Result.found r = true ->
        exists x, StateRead.Result.amount r = Some x /\ gt x zero = true)).
Proof.
  cbv zeta. destruct (truthyString address) eqn:Ha.
  - rewrite (stateRead_checkAllocations_settles w address m Ha). cbn [fst snd ui calls].
    unfold settledStateRead.
    assert (Hmsg : match stateReadResolution w address with
                   | Rejected message => message <> EmptyString
                   | Resolved _ => True
                   end).
    { unfold stateReadResolution.
      destruct (StateRead.isEnsName address);
        [destruct (StateRead.getEnsAddress w address) as [[a|]|e];
         [destruct (truthyString a)| |]
        |destruct (matchesAddress address)]; try exact I; discriminate. }
    assert (Hcalls : forall url (l : list NetCall),
              (forall c, In c l -> c <> Fetch url) ->
              In (Fetch url) (calls m ++ l) -> In (Fetch url) (calls m)).
    { intros url l Hl Hin. apply in_app_or in Hin as [Hin|Hin]; [exact Hin|].
      exfalso. exact (Hl _ Hin eq_refl). }
    destruct (stateReadResolution w address) as [a|message] eqn:Hres.
    + destruct (StateRead.entityByAddress w a) as [entityID|e] eqn:Hloc;
        [destruct (StateRead.entityStateByID w entityID) as [entityState|e] eqn:Hst|];
        cbn [fst snd]; (split; [discriminate|]);
        (split; [intros url; apply Hcalls; intros c Hin;
                 destruct (StateRead.isEnsName address); cbn in Hin;
                 repeat destruct Hin as [<-|Hin]; try discriminate; destruct Hin|]);
        intros _; cbn;
        (split; [reflexivity|]); (split; [reflexivity|]);
        (split; [split; intros; try discriminate; congruence|]);
        intros r [= <-].
      exists a, entityState. split; [reflexivity|].
      unfold StateRead.classify. rewrite Number_strictEq_zero.
      destruct (DirectRead.EntityState.acceptedAmount entityState) as [|p] eqn:Hacc;
        cbn [N.eqb StateRead.Result.entityID StateRead.Result.found
             StateRead.Result.amount].
      * repeat split; auto. discriminate.
      * repeat split; auto. intros _. eexists. split; [reflexivity|].
        apply (proj1 (scaled_amount_positive_iff (Npos p))).
    + cbn [fst snd]. split; [discriminate|].
      split; [intros url; apply Hcalls; intros c Hin;
              destruct (StateRead.isEnsName address); cbn in Hin;
              repeat destruct Hin as [<-|Hin]; try discriminate; destruct Hin|].
      intros _. cbn. repeat split; intros; try discriminate; congruence.
  - unfold StateRead.checkAllocations. rewrite Ha. cbn.
    split; [discriminate|]. split; [auto|discriminate].
Qed.

End StateReadCoverage.

(** ** The two direct-read revisions side by side *)

Section Revisions.
Import JS Effects.

(** The services the revision without the API uses, out of those of the
    revision with it. *)
Definition onChainPart (w : DirectRead.World) : StateRead.World :=
  StateRead.mkWorld (DirectRead.getEnsAddress w) (DirectRead.entityByAddress w)
                    (DirectRead.entityStateByID w).

(** On the same input and services, the revision with the API ends with
    the same error as the one without, and with a result exactly when that one
    does, for the same entity; what the older revision finds the newer finds
    too, with the same amount and flags; and what only the newer finds is
    vouched for by the API, with amount zero. *)
Theorem api_revision_extends_state_read (w : DirectRead.World) (address : string)
  (m1 : Machine StateRead.Result.t) (m3 : Machine DirectRead.Result.t) :
  truthyString address = true ->
  let run1 := StateRead.checkAllocations (onChainPart w) address m1 in
  let run3 := DirectRead.checkAllocations w address m3 in
  error (ui (snd run1)) = error (ui (snd run3)) /\
  (result (ui (snd run1)) = None <-> result (ui (snd run3)) = None) /\
  forall r1 r3,
    result (ui (snd run1)) = Some r1 ->
    result (ui (snd run3)) = Some r3 ->
    StateRead.Result.entityID r1 = DirectRead.Result.entityID r3 /\
    (StateRead.Result.found r1 = true ->
     DirectRead.Result.found r3 = true /\
     DirectRead.Result.amount r3 = StateRead.Result.amount r1 /\
     DirectRead.Result.refunded r3 = StateRead.Result.refunded r1 /\
     DirectRead.Result.cancelled r3 = StateRead.Result.cancelled r1 /\
     DirectRead.Result.bidTimestamp r3 = StateRead.Result.bidTimestamp r1) /\
    (StateRead.Result.found r1 = false ->
     DirectRead.Result.found r3 = true ->
     DirectRead.hasApiAllocation (DirectRead.Result.apiAllocation r3) = true /\
     DirectRead.Result.amount r3 = Some zero).
Proof.
  intros Ha. cbv zeta.
  rewrite (stateRead_checkAllocations_settles (onChainPart w) address m1 Ha).
  rewrite (checkAllocations_settles w address m3 Ha). cbn [fst snd ui].
  unfold settledStateRead, settledRun.
  change (stateReadResolution (onChainPart w) address) with (resolutionOf w address).
  destruct (resolutionOf w address) as [a|message]; cbn [fst snd].
  2:{ cbn. repeat split; intros; discriminate. }
  change (StateRead.entityByAddress (onChainPart w) a)
    with (DirectRead.entityByAddress w a).
  destruct (DirectRead.entityByAddress w a) as [entityID|e]; cbn [fst snd].
  2:{ cbn. repeat split; intros; discriminate. }
  change (StateRead.entityStateByID (onChainPart w) entityID)
    with (DirectRead.entityStateByID w entityID).
  destruct (DirectRead.entityStateByID w entityID) as [entityState|e]; cbn [fst snd].
  2:{ cbn. repeat split; intros; discriminate. }
  cbn [error result]. split; [reflexivity|]. split; [split; discriminate|].
  intros r1 r3 [= <-] [= <-].
  unfold StateRead.classify, DirectRead.reconcile. rewrite Number_strictEq_zero.
  destruct (N.eqb_spec (DirectRead.EntityState.acceptedAmount entityState) 0) as [E|E].
  - destruct (DirectRead.hasApiAllocation (fst (offChainAnswer w entityID))) eqn:Hapi;
      cbn; (split; [reflexivity|]); split; intros; try discriminate.
    split; [exact Hapi|]. rewrite E. reflexivity.
  - cbn. split; [reflexivity|]. split; intros; try discriminate. repeat split.
Qed.

Lemma api_revision_extends_state_read_witness :
  error (ui (snd (StateRead.checkAllocations (onChainPart relayDownWorld) upperLiteral
                    (mkMachine (mkUI false None EmptyString EmptyString) [])))) =
  error (ui (snd (DirectRead.checkAllocations relayDownWorld upperLiteral idle))).
Proof.
  apply (api_revision_extends_state_read relayDownWorld upperLiteral
           (mkMachine (mkUI false None EmptyString EmptyString) []) idle eq_refl).
Defined.

End Revisions.

(** ** The client behind the relay *)

Section RelayedClient.
Import JS Effects.

(** How the relay's answer reaches the client's [fetch]: the status as
    sent, and the body the relay serialized, read back as JSON or as text. An
    error body is an object without allocation keys. *)
Definition relayed (serialize : Relay.Body (option DirectRead.ApiData) -> string)
  (response : Relay.Response (option DirectRead.ApiData)) : DirectRead.Response.t :=
  DirectRead.Response.mk
    (Relay.status response)
    (match Relay.body response with
     | Relay.DataBody data => Returns data
     | Relay.ErrorBody _ => Returns (Some (DirectRead.mkApiData None None None))
     end)
    (Returns (serialize (Relay.body response))).

(** In production, where the client's fetch of the relay's path is
    answered by the relay, the client records the error
    [API returned status 500] exactly when the upstream fetch fails or the
    upstream body is not JSON, and takes the upstream's JSON as the
    allocation otherwise, whatever status the upstream answered with. *)
Theorem client_behind_relay
  (serialize : Relay.Body (option DirectRead.ApiData) -> string)
  (upstream : string -> outcome (Relay.Upstream (option DirectRead.ApiData)))
  (w : DirectRead.World) (entityID : string) (m : Machine DirectRead.Result.t) :
  DirectRead.DEV w = false ->
  truthyString entityID = true ->
  DirectRead.fetch w ("/.netlify/functions/allocation?entityId=" ++ entityID) =
    Returns (relayed serialize (Relay.handler upstream [("entityId", entityID)])) ->
  fst (DirectRead.fetchConfirmed w entityID m) =
  Normal
    (match upstream (Relay.apiUrl entityID) with
     | Throws _ => (None, Some "API returned status 500")
     | Returns answer =>
         match Relay.upstream_json answer with
         | Throws _ => (None, Some "API returned status 500")
         | Returns data => (data, None)
         end
     end).
Proof.
  intros Hdev Hid Hfetch.
  destruct (fetchConfirmed_run w entityID m) as [p Hp]. rewrite Hp. cbn [fst].
  f_equal. unfold offChainAnswer, DirectRead.apiUrl. rewrite Hdev, Hfetch.
  unfold Relay.handler.
  change (Relay.searchParams_get [("entityId", entityID)] "entityId")
    with (Some entityID).
  cbv beta iota. rewrite Hid. cbn [negb].
  destruct (upstream (Relay.apiUrl entityID)) as [answer|e]; [|reflexivity].
  destruct (Relay.upstream_json answer) as [data|e]; reflexivity.
Qed.

(** An upstream that answers 404 with a JSON body, behind the relay. *)
Definition notFoundUpstream (url : string)
  : outcome (Relay.Upstream (option DirectRead.ApiData)) :=
  Returns (Relay.mkUpstream 404 (Returns (Some (DirectRead.mkApiData None None None)))).

Definition productionWorld : DirectRead.World :=
  DirectRead.mkWorld false (fun _ => Returns None)
    (fun _ => Returns "0x000000000000000000000000000000a1")
    (fun _ => Returns fundedState)
    (fun url =>
       Returns (relayed (fun _ => "{}")
                  (Relay.handler notFoundUpstream
                     [("entityId", "0x000000000000000000000000000000a1")]))).

Lemma client_behind_relay_witness :
  fst (DirectRead.fetchConfirmed productionWorld
         "0x000000000000000000000000000000a1" idle) =
  Normal (Some (DirectRead.mkApiData None None None), None).
Proof.
  apply (client_behind_relay (fun _ => "{}") notFoundUpstream productionWorld
           "0x000000000000000000000000000000a1" idle eq_refl eq_refl eq_refl).
Defined.

End RelayedClient.

(** ** The pages *)

Section Pages.
Import JS Effects View.

(** The component as mounted: every state variable at its initial value. *)
Definition mounted {R} : Page R :=
  mkPage EmptyString (mkMachine (mkUI false None EmptyString EmptyString) []).

(** The page after a sequence of events, each run settling before the
    next one. *)
Definition after {R} (step : Event -> Page R -> Page R) (events : list Event)
  (p : Page R) : Page R :=
  fold_left (fun p e => step e p) events p.

(** Nothing is pending, and a result is on the page together with an error
    only if the error is one of [guards]. *)
Definition atRest {R} (guards : list string) (st : UI R) : Prop :=
  loading st = false /\ progress st = EmptyString /\
  (result st <> None -> error st = EmptyString \/ In (error st) guards).

Lemma after_invariant {R} (step : Event -> Page R -> Page R) (Inv : Page R -> Prop) :
  (forall e p, Inv p -> Inv (step e p)) ->
  forall events p, Inv p -> Inv (after step events p).
Proof.
  intros Hstep events. induction events as [|e events IH]; intros p Hp.
  - exact Hp.
  - apply IH, Hstep, Hp.
Qed.

End Pages.

Section DirectReadPages.
Import JS Effects View DirectRead DirectReadPage.

Lemma settledRun_atRest (w : World) (address : string) :
  atRest [EmptyInput] (snd (fst (settledRun w address))).
Proof.
  unfold settledRun, atRest.
  destruct (resolutionOf w address) as [a|message]; cbn;
    [|repeat split; intros H; contradiction].
  destruct (entityByAddress w a) as [entityID|e]; cbn;
    [|repeat split; intros H; contradiction].
  destruct (entityStateByID w entityID) as [entityState|e]; cbn;
    [|repeat split; intros H; contradiction].
  repeat split. intros _. left. reflexivity.
Qed.

Lemma run_atRest (w : World) (address : string) (m : Machine Result.t) :
  atRest [EmptyInput] (ui m) ->
  atRest [EmptyInput] (ui (snd (checkAllocations w address m))).
Proof.
  intros (Hl & Hp & Hr).
  destruct (truthyString address) eqn:Ha.
  - rewrite (checkAllocations_settles w address m Ha). apply settledRun_atRest.
  - unfold checkAllocations. rewrite Ha. cbn. repeat split; try assumption.
    intros _. right. left. reflexivity.
Qed.

Lemma step_atRest (w : World) (e : Event) (p : Page Result.t) :
  atRest [EmptyInput] (ui (machine p)) ->
  atRest [EmptyInput] (ui (machine (step w e p))).
Proof.
  intros Hp. unfold step.
  destruct (loading (ui (machine p))); [exact Hp|].
  destruct e as [text|key|]; cbn.
  - exact Hp.
  - unfold handleKeyPress. destruct (String.eqb key "Enter"); cbn.
    + apply run_atRest, Hp.
    + exact Hp.
  - apply run_atRest, Hp.
Qed.

(** What the user does to get the prompt beside a result: type an address,
    press Enter, clear the field, click. *)
Definition promptBesideResult : list Event :=
  [Type_ upperLiteral; KeyPress "Enter"; Type_ EmptyString; Click].

(** X22. Whatever the remote services answer and whatever the user types,
    presses or clicks, once the runs have settled the page is at rest:
    [loading] is false, the progress line is empty, and an error is shown
    beside a result only if it is the empty-input prompt. That last case
    occurs: the guard for an empty input returns before the state is reset,
    so the previous result stays on the page. *)
Theorem page_rests_after_any_events :
  (forall (w : World) (events : list Event),
     atRest [EmptyInput] (ui (machine (after (step w) events mounted)))) /\
  (let p := after (step settledWorld) promptBesideResult mounted in
   result (ui (machine p)) <> None /\ error (ui (machine p)) = EmptyInput).
Proof.
  split.
  - intros w events.
    apply (after_invariant (step w)
             (fun p => atRest [EmptyInput] (ui (machine p)))).
    + intros e p. apply step_atRest.
    + cbn. repeat split. intros H. contradiction.
  - vm_compute. split; [discriminate|reflexivity].
Qed.

(** X25. In the found panel of a classified result the on-chain row and
    the notes follow the on-chain amount: with nothing accepted on chain the
    row reads [Not yet updated], the end-of-month note is shown and no API
    warning is; with an accepted amount the row shows that amount, formatted
    for the locale, and the note is not shown. *)
Theorem found_panel_follows_the_chain (toLocaleString : number -> string)
  (entityID : string) (entityState : EntityState.t) (apiAllocation : option ApiData)
  (apiError : option string) :
  let r := reconcile entityID entityState apiAllocation apiError in
  Result.found r = true ->
  if (EntityState.acceptedAmount entityState =? 0)%N then
    onChainRow toLocaleString (Result.amount r) =
      detailItem "⛓️ On-Chain Amount:" "value" [Text "Not yet updated"] /\
    pendingNote (Result.amount r) (Result.apiAllocation r) =
      Elem "p" [className "info-text"]
           [Text "⏳ The on-chain state will be updated at the end of the month."] /\
    apiWarning (Result.apiAllocation r) (Result.apiError r) = Blank
  else
    onChainRow toLocaleString (Result.amount r) =
      detailItem "⛓️ On-Chain Amount:" "value"
        [Text (toLocaleString
                 (div (Number (Z.of_N (EntityState.acceptedAmount entityState)))
                      million) ++ " USDT")] /\
    pendingNote (Result.amount r) (Result.apiAllocation r) = Blank.
Proof.
  cbv zeta. unfold reconcile. rewrite Number_strictEq_zero.
  destruct (scaled_amount_positive_iff (EntityState.acceptedAmount entityState))
    as [Hgt Heq].
  destruct (EntityState.acceptedAmount entityState =? 0)%N eqn:Hz.
  - destruct (hasApiAllocation apiAllocation) eqn:Hapi;
      cbn [andb negb Result.found Result.amount Result.apiAllocation
           Result.apiError]; [|discriminate].
    intros _. apply N.eqb_eq in Hz.
    unfold onChainRow, pendingNote, apiWarning. rewrite Hgt, Heq, Hz.
    destruct apiAllocation as [d|]; [|discriminate Hapi].
    repeat split.
  - cbn [andb negb Result.found Result.amount Result.apiAllocation
         Result.apiError].
    intros _. unfold onChainRow, pendingNote. rewrite Hgt, Heq.
    apply N.eqb_neq in Hz.
    destruct (N.ltb_spec 0 (EntityState.acceptedAmount entityState)) as [_|Hle];
      [|lia].
    split; reflexivity.
Qed.

(** A formatter standing in for the browser's. *)
Definition sampleLocale (x : number) : string :=
  if SFeqb x (div (Number 5) (Number 2)) then "2.5" else "0".

Lemma found_panel_follows_the_chain_witness :
  let r := reconcile "0x000000000000000000000000000000a1" fundedState None
                     (Some "Failed to fetch") in
  Result.found r = true /\
  onChainRow sampleLocale (Result.amount r) =
    detailItem "⛓️ On-Chain Amount:" "value" [Text "2.5 USDT"] /\
  pendingNote (Result.amount r) (Result.apiAllocation r) = Blank.
Proof.
  split; [reflexivity|].
  exact (found_panel_follows_the_chain sampleLocale
           "0x000000000000000000000000000000a1" fundedState None
           (Some "Failed to fetch") eq_refl).
Defined.

(** The page showing the result classified from an on-chain state and a
    failed off-chain fetch. *)
Definition pageAfterFailedFetch (toLocaleString : number -> string)
  (address entityID : string) (entityState : EntityState.t)
  (apiError : option string) : Node :=
  render toLocaleString address
         (mkUI false (Some (reconcile entityID entityState None apiError))
               EmptyString EmptyString).

(** X26. A failed off-chain fetch is visible on the page only beside an
    on-chain amount: with nothing accepted on chain the page is the same
    whatever the failure was (the not-found panel does not read it), while
    with an accepted amount two failures give the same page only if they are
    the same failure. *)
Theorem api_failure_shown_only_beside_an_amount
  (toLocaleString : number -> string) (address entityID : string)
  (entityState : EntityState.t) (apiError apiError' : option string) :
  let show := pageAfterFailedFetch toLocaleString address entityID entityState in
  if (EntityState.acceptedAmount entityState =? 0)%N then
    show apiError = show apiError'
  else
    forall e e' : string, show (Some e) = show (Some e') -> e = e'.
Proof.
  cbv zeta. unfold pageAfterFailedFetch, reconcile.
  rewrite Number_strictEq_zero.
  destruct (EntityState.acceptedAmount entityState =? 0)%N; cbn [andb negb hasApiAllocation].
  - reflexivity.
  - intros e e' H. unfold render in H. cbn in H.
    unfold page, resultPanel, foundPanel, apiWarning in H.
    cbn [Result.apiAllocation Result.apiError] in H.
    destruct (truthyString e), (truthyString e'); inversion H; reflexivity.
Qed.

End DirectReadPages.

Section EventScanPages.
Import JS Effects View EventScan EventScanPage.

(** A found result has the keys the found panel reads. *)
Definition complete (st : UI Result.t) : Prop :=
  forall r, result st = Some r -> Result.found r = true ->
            Result.amount r <> None /\ Result.transactionHash r <> None.

Definition scanGuards : list string := [EmptyInput; InvalidAddressFormat].

Lemma reconstruct_complete (entityID : string) (allLogs : list Log.t) :
  Result.found (reconstruct entityID allLogs) = true ->
  Result.amount (reconstruct entityID allLogs) <> None /\
  Result.transactionHash (reconstruct entityID allLogs) <> None.
Proof.
  unfold reconstruct. destruct (filter (sameEntity entityID) allLogs); cbn.
  - discriminate.
  - intros _. split; discriminate.
Qed.

Lemma settledScan_atRest (w : World) (address : string) :
  atRest scanGuards (fst (settledScan w address)) /\
  complete (fst (settledScan w address)).
Proof.
  unfold settledScan, atRest, complete.
  destruct (getBlockNumber w) as [currentBlock|e]; cbn;
    [|repeat split; intros; try contradiction; discriminate].
  destruct (entityByAddress w address) as [entityID|e]; cbn;
    [|repeat split; intros; try contradiction; discriminate].
  destruct (snd (scanRanges w (chunkRanges START_BLOCK currentBlock) []))
    as [allLogs|e]; cbn;
    [|repeat split; intros; try contradiction; discriminate].
  split; [repeat split; intros _; left; reflexivity|].
  intros r Hr. injection Hr as <-. apply reconstruct_complete.
Qed.

Lemma scan_run_atRest (w : World) (address : string) (m : Machine Result.t) :
  atRest scanGuards (ui m) /\ complete (ui m) ->
  atRest scanGuards (ui (snd (checkAllocations w address m))) /\
  complete (ui (snd (checkAllocations w address m))).
Proof.
  intros [(Hl & Hp & Hr) Hc].
  destruct (matchesAddress address) eqn:Hlit.
  - rewrite (scan_checkAllocations_settles w address m Hlit).
    apply settledScan_atRest.
  - unfold checkAllocations. rewrite Hlit.
    destruct (truthyString address); cbn;
      (split; [repeat split; try assumption; intros _; right; cbn; tauto
              |exact Hc]).
Qed.

Lemma scan_step_atRest (w : World) (e : Event) (p : Page Result.t) :
  atRest scanGuards (ui (machine p)) /\ complete (ui (machine p)) ->
  atRest scanGuards (ui (machine (step w e p))) /\
  complete (ui (machine (step w e p))).
Proof.
  intros Hp. unfold step.
  destruct (loading (ui (machine p))); [exact Hp|].
  destruct e as [text|key|]; cbn.
  - exact Hp.
  - unfold handleKeyPress. destruct (String.eqb key "Enter"); cbn.
    + apply scan_run_atRest, Hp.
    + exact Hp.
  - apply scan_run_atRest, Hp.
Qed.

Lemma complete_renders (toLocaleString : number -> string) (address : string)
  (st : UI Result.t) :
  complete st -> exists node, render toLocaleString address st = Some node.
Proof.
  intros Hc. unfold render.
  destruct (result st) as [r|] eqn:Hr; [|eexists; reflexivity].
  destruct (Result.found r) eqn:Hf; [|eexists; reflexivity].
  destruct (Hc r Hr Hf) as [Ha Ht]. unfold foundPanel.
  destruct (Result.amount r); [|contradiction].
  destruct (Result.transactionHash r); [|contradiction].
  eexists. reflexivity.
Qed.

(** X23. The event-scan page: whatever the node answers and whatever the
    user does, once the runs have settled the page is at rest (an error
    beside a result can only be one of the two guards' messages, which
    return before the state is reset), and it renders: the found panel,
    which would throw on a result without an amount or a transaction hash,
    never meets one. *)
Theorem scan_page_renders_after_any_events
  (toLocaleString : number -> string) (w : World) (events : list Event) :
  let p := after (step w) events mounted in
  atRest scanGuards (ui (machine p)) /\
  exists node, render toLocaleString (address p) (ui (machine p)) = Some node.
Proof.
  cbv zeta.
  assert (H : atRest scanGuards (ui (machine (after (step w) events mounted))) /\
              complete (ui (machine (after (step w) events mounted)))).
  { apply (after_invariant (step w)
             (fun p => atRest scanGuards (ui (machine p)) /\
                       complete (ui (machine p)))).
    - intros e p. apply scan_step_atRest.
    - cbn. split; [repeat split; intros H; contradiction|].
      intros r Hr. discriminate Hr. }
  destruct H as [Hrest Hc]. split; [exact Hrest|].
  apply complete_renders, Hc.
Qed.

End EventScanPages.

Section StateReadPages.
Import JS Effects View StateRead StateReadPage.

Definition stateReadComplete (st : UI Result.t) : Prop :=
  forall r, result st = Some r -> Result.found r = true -> Result.amount r <> None.

Lemma settledStateRead_atRest (w : World) (address : string) :
  atRest [EmptyInput] (snd (fst (settledStateRead w address))) /\
  stateReadComplete (snd (fst (settledStateRead w address))).
Proof.
  unfold settledStateRead, atRest, stateReadComplete.
  destruct (stateReadResolution w address) as [a|message]; cbn;
    [|repeat split; intros; try contradiction; discriminate].
  destruct (entityByAddress w a) as [entityID|e]; cbn;
    [|repeat split; intros; try contradiction; discriminate].
  destruct (entityStateByID w entityID) as [entityState|e]; cbn;
    [|repeat split; intros; try contradiction; discriminate].
  split; [repeat split; intros _; left; reflexivity|].
  intros r Hr. injection Hr as <-. unfold classify.
  destruct (strictEq _ zero); cbn; discriminate.
Qed.

Lemma stateRead_run_atRest (w : World) (address : string) (m : Machine Result.t) :
  atRest [EmptyInput] (ui m) /\ stateReadComplete (ui m) ->
  atRest [EmptyInput] (ui (snd (checkAllocations w address m))) /\
  stateReadComplete (ui (snd (checkAllocations w address m))).
Proof.
  intros [(Hl & Hp & Hr) Hc].
  destruct (truthyString address) eqn:Ha.
  - rewrite (stateRead_checkAllocations_settles w address m Ha).
    apply settledStateRead_atRest.
  - unfold checkAllocations. rewrite Ha. cbn.
    split; [repeat split; try assumption; intros _; right; left; reflexivity
           |exact Hc].
Qed.

Lemma stateRead_step_atRest (w : World) (e : Event) (p : Page Result.t) :
  atRest [EmptyInput] (ui (machine p)) /\ stateReadComplete (ui (machine p)) ->
  atRest [EmptyInput] (ui (machine (step w e p))) /\
  stateReadComplete (ui (machine (step w e p))).
Proof.
  intros Hp. unfold step.
  destruct (loading (ui (machine p))); [exact Hp|].
  destruct e as [text|key|]; cbn.
  - exact Hp.
  - unfold handleKeyPress. destruct (String.eqb key "Enter"); cbn.
    + apply stateRead_run_atRest, Hp.
    + exact Hp.
  - apply stateRead_run_atRest, Hp.
Qed.

(** X24. The state-read page: whatever the remote services answer and
    whatever the user does, once the runs have settled the page is at rest
    and renders: the found panel, which would throw on a result without an
    amount, never meets one. *)
Theorem state_read_page_renders_after_any_events
  (toLocaleString : number -> string) (w : World) (events : list Event) :
  let p := after (step w) events mounted in
  atRest [EmptyInput] (ui (machine p)) /\
  exists node, render toLocaleString (address p) (ui (machine p)) = Some node.
Proof.
  cbv zeta.
  assert (H : atRest [EmptyInput] (ui (machine (after (step w) events mounted))) /\
              stateReadComplete (ui (machine (after (step w) events mounted)))).
  { apply (after_invariant (step w)
             (fun p => atRest [EmptyInput] (ui (machine p)) /\
                       stateReadComplete (ui (machine p)))).
    - intros e p. apply stateRead_step_atRest.
    - cbn. split; [repeat split; intros H; contradiction|].
      intros r Hr. discriminate Hr. }
  destruct H as [Hrest Hc]. split; [exact Hrest|].
  unfold render.
  destruct (result _) as [r|] eqn:Hr; [|eexists; reflexivity].
  destruct (Result.found r) eqn:Hf; [|eexists; reflexivity].
  pose proof (Hc r Hr Hf) as Ha. unfold foundPanel.
  destruct (Result.amount r); [|contradiction].
  eexists. reflexivity.
Qed.

End StateReadPages.
